(** * Audify-JS-Plus: platform resolver and binary loader

    A shallow embedding of [index.js] (the loader) and of
    [postinstall.js] (the install-time permission step), with the parts
    of the Node.js runtime they call ([os], [path], [fs], [console],
    [require]) modelled as far as the code depends on them. *)

From Stdlib Require Import ZArith Ascii String Numbers.DecimalString.
From stdpp Require Import base option list strings gmap.

Local Open Scope Z_scope.
Set Default Proof Using "Type".

(** ** Strings *)

Module Str.

Lemma app_nil_l (s : string) : "" +:+ s = s.
Proof. reflexivity. Qed.

Lemma app_cons (c : ascii) (s t : string) :
  String c s +:+ t = String c (s +:+ t).
Proof. reflexivity. Qed.

Lemma app_nil_r (s : string) : s +:+ "" = s.
Proof. induction s as [|c s IH]; [reflexivity|]. by rewrite app_cons, IH. Qed.

Lemma app_assoc (s t u : string) : (s +:+ t) +:+ u = s +:+ (t +:+ u).
Proof.
  induction s as [|c s IH]; [reflexivity|]. by rewrite !app_cons, IH.
Qed.

Lemma app_eq_nil (s t : string) : s +:+ t = "" → s = "" ∧ t = "".
Proof. destruct s; [rewrite app_nil_l; auto | rewrite app_cons; discriminate]. Qed.

(** [Array.prototype.join]: the elements separated by [sep]. *)
Fixpoint join (sep : string) (l : list string) : string :=
  match l with
  | [] => ""
  | [s] => s
  | s :: rest => s +:+ sep +:+ join sep rest
  end.

(** [String.prototype.startsWith] / [endsWith] / [includes], as
    propositions. *)
Definition starts_with (s pre : string) : Prop := ∃ post, s = pre +:+ post.
Definition ends_with (s suf : string) : Prop := ∃ pre, s = pre +:+ suf.
Definition includes (s sub : string) : Prop :=
  ∃ pre post, s = pre +:+ sub +:+ post.

(** The same three as executable tests. *)
Fixpoint prefixb (pre s : string) : bool :=
  match pre, s with
  | "", _ => true
  | String a pre', String b s' => if decide (a = b) then prefixb pre' s' else false
  | String _ _, "" => false
  end.

Fixpoint includesb (s sub : string) : bool :=
  prefixb sub s ||
  match s with
  | "" => false
  | String _ s' => includesb s' sub
  end.

Lemma prefixb_spec (pre s : string) : prefixb pre s = true ↔ starts_with s pre.
Proof.
  revert s. induction pre as [|a pre IH]; intros s; simpl.
  - split; [intros _; by exists s | done].
  - destruct s as [|b s].
    + split; [done | intros [post H]; rewrite app_cons in H; discriminate].
    + destruct (decide (a = b)) as [->|Hne].
      * rewrite IH. split; intros [post H]; exists post.
        -- by rewrite app_cons, <- H.
        -- rewrite app_cons in H. by injection H.
      * split; [done | intros [post H]; rewrite app_cons in H; congruence].
Qed.

Lemma includesb_spec (s sub : string) : includesb s sub = true ↔ includes s sub.
Proof.
  induction s as [|c s IH]; simpl.
  - rewrite orb_false_r, prefixb_spec. split.
    + intros [post H]. exists "", post. by rewrite app_nil_l.
    + intros (pre & post & H). symmetry in H.
      apply app_eq_nil in H as [-> H].
      apply app_eq_nil in H as [-> ->]. by exists "".
  - rewrite orb_true_iff, prefixb_spec, IH. split.
    + intros [[post H] | (pre & post & H)].
      * exists "", post. by rewrite app_nil_l.
      * exists (String c pre), post. by rewrite app_cons, <- H.
    + intros (pre & post & H). destruct pre as [|a pre].
      * left. exists post. by rewrite app_nil_l in H.
      * right. rewrite app_cons in H. injection H as _ H. by exists pre, post.
Qed.

Lemma includes_app_l (s t sub : string) : includes s sub → includes (s +:+ t) sub.
Proof.
  intros (pre & post & ->). exists pre, (post +:+ t).
  by rewrite !app_assoc.
Qed.

Lemma includes_app_r (s t sub : string) : includes t sub → includes (s +:+ t) sub.
Proof.
  intros (pre & post & ->). exists (s +:+ pre), post. by rewrite !app_assoc.
Qed.

Lemma includes_refl (s : string) : includes s s.
Proof. exists "", "". by rewrite app_nil_l, app_nil_r. Qed.

Lemma includes_join (sep x : string) (l : list string) :
  x ∈ l → includes (join sep l) x.
Proof.
  induction l as [|y l IH]; [by intros ?%elem_of_nil|].
  intros [->|Hin]%elem_of_cons.
  - destruct l; [apply includes_refl | apply includes_app_l, includes_refl].
  - destruct l as [|z l]; [by apply elem_of_nil in Hin|].
    change (join sep (y :: z :: l)) with (y +:+ sep +:+ join sep (z :: l)).
    by apply includes_app_r, includes_app_r, IH.
Qed.

(** First and last character. *)
Definition head (s : string) : option ascii :=
  match s with "" => None | String c _ => Some c end.

Fixpoint last (s : string) : option ascii :=
  match s with
  | "" => None
  | String c "" => Some c
  | String _ s' => last s'
  end.

Lemma last_app (s t : string) : t ≠ "" → last (s +:+ t) = last t.
Proof.
  intros Ht. induction s as [|c s IH]; [reflexivity|].
  rewrite app_cons. simpl. rewrite IH.
  destruct (s +:+ t) eqn:E; [|done].
  by apply app_eq_nil in E as [_ ?].
Qed.

(** A character occurs in a string. *)
Fixpoint has_char (p : ascii → bool) (s : string) : bool :=
  match s with
  | "" => false
  | String c s' => p c || has_char p s'
  end.

Lemma has_char_app (p : ascii → bool) (s t : string) :
  has_char p (s +:+ t) = has_char p s || has_char p t.
Proof.
  induction s as [|c s IH]; [reflexivity|].
  rewrite app_cons. simpl. by rewrite IH, orb_assoc.
Qed.

End Str.

(** ** Node's [path.join]

    [path.join(...paths)] joins the non-empty arguments with the
    platform separator and normalises the result: empty and ["."]
    segments are dropped, [".."] removes the segment before it, runs of
    separators collapse, a leading and a trailing separator are kept.
    On Windows both ["/"] and ["\"] separate segments and ["\"] is
    written.  Drive-letter and UNC roots get no special treatment here:
    a drive such as ["C:"] is an ordinary first segment, which is how
    [path.win32.join] treats the normalised drive-letter path that
    [__dirname] is. *)

Module Path.

Inductive Flavour : Type := Posix | Win32.

Definition is_sep (fl : Flavour) (c : ascii) : bool :=
  match fl with
  | Posix => bool_decide (c = "/"%char)
  | Win32 => bool_decide (c = "/"%char) || bool_decide (c = "\"%char)
  end.

Definition sep_char (fl : Flavour) : ascii :=
  match fl with Posix => "/"%char | Win32 => "\"%char end.

Definition sep (fl : Flavour) : string := String (sep_char fl) "".

(** The segments of a path: the pieces between separators, empty
    pieces included. *)
Fixpoint split (p : ascii → bool) (s : string) : list string :=
  match s with
  | "" => [""]
  | String c s' =>
      if p c then "" :: split p s'
      else match split p s' with
           | seg :: rest => String c seg :: rest
           | [] => [String c ""]
           end
  end.

(** One segment in [normalizeString]; [stack] holds the segments kept
    so far, the last one first. *)
Definition norm_step (allowAboveRoot : bool) (stack : list string) (seg : string)
  : list string :=
  if decide (seg = "" ∨ seg = ".") then stack
  else if decide (seg = "..") then
    match stack with
    | top :: rest =>
        if decide (top = "..")
        then (if allowAboveRoot then ".." :: stack else stack)
        else rest
    | [] => if allowAboveRoot then [".."] else []
    end
  else seg :: stack.

Definition normalizeString (allowAboveRoot : bool) (segs : list string) : list string :=
  rev (fold_left (norm_step allowAboveRoot) segs []).

Definition starts_with_sep (fl : Flavour) (s : string) : bool :=
  match Str.head s with Some c => is_sep fl c | None => false end.

Definition ends_with_sep (fl : Flavour) (s : string) : bool :=
  match Str.last s with Some c => is_sep fl c | None => false end.

Definition normalize (fl : Flavour) (path : string) : string :=
  if decide (path = "") then "."
  else
    let isAbsolute := starts_with_sep fl path in
    let trailingSeparator := ends_with_sep fl path in
    let p := Str.join (sep fl)
               (normalizeString (negb isAbsolute) (split (is_sep fl) path)) in
    if decide (p = "") then
      if isAbsolute then sep fl
      else if trailingSeparator then "." +:+ sep fl else "."
    else
      let p := if trailingSeparator then p +:+ sep fl else p in
      if isAbsolute then sep fl +:+ p else p.

Definition join (fl : Flavour) (paths : list string) : string :=
  match filter (λ s, s ≠ "") paths with
  | [] => "."
  | parts => normalize fl (Str.join (sep fl) parts)
  end.

Example join_posix :
  join Posix ["/opt/app"; "prebuilds"; "linux-x64"; "build"; "Release"; "audify.node"]
  = "/opt/app/prebuilds/linux-x64/build/Release/audify.node".
Proof. reflexivity. Qed.

Example join_posix_dots :
  join Posix ["/opt//app/./lib/"; ".."; "prebuilds"; ""; "x/"] = "/opt/app/prebuilds/x/".
Proof. reflexivity. Qed.

Example join_posix_above_root :
  join Posix ["/.."; "a"] = "/a" ∧ join Posix [".."; ".."; "a"] = "../../a"
  ∧ join Posix ["a"; ".."] = "." ∧ join Posix ["/"] = "/" ∧ join Posix [] = ".".
Proof. repeat split; reflexivity. Qed.

Example join_win32 :
  join Win32 ["C:\ext\audify"; "prebuilds"; "win32-x64"; "build"; "Release"; "audify.node"]
  = "C:\ext\audify\prebuilds\win32-x64\build\Release\audify.node".
Proof. reflexivity. Qed.

(** A segment that normalisation keeps as it is: a plain name. *)
Definition plain (fl : Flavour) (s : string) : Prop :=
  s ≠ "" ∧ s ≠ "." ∧ s ≠ ".." ∧ Str.has_char (is_sep fl) s = false.

Global Instance plain_dec fl s : Decision (plain fl s).
Proof. unfold plain. apply _. Defined.

Lemma is_sep_sep_char (fl : Flavour) : is_sep fl (sep_char fl) = true.
Proof. by destruct fl. Qed.

Lemma split_nonempty (p : ascii → bool) (s : string) : split p s ≠ [].
Proof.
  destruct s as [|c s]; simpl; [done|].
  destruct (p c); [done|]. by destruct (split p s).
Qed.

Lemma split_app_sep (p : ascii → bool) (a b : string) (c : ascii) :
  p c = true → split p (a +:+ String c b) = split p a ++ split p b.
Proof.
  intros Hc. induction a as [|x a IH].
  - rewrite Str.app_nil_l. simpl. by rewrite Hc.
  - rewrite Str.app_cons. simpl. rewrite IH.
    destruct (p x); [done|].
    pose proof (split_nonempty p a). by destruct (split p a).
Qed.

Lemma split_plain (p : ascii → bool) (s : string) :
  Str.has_char p s = false → split p s = [s].
Proof.
  induction s as [|c s IH]; simpl; [done|].
  intros [Hc Hs]%orb_false_iff. by rewrite Hc, (IH Hs).
Qed.

Lemma split_join (fl : Flavour) (d : string) (tail : list string) :
  Forall (plain fl) tail →
  split (is_sep fl) (Str.join (sep fl) (d :: tail)) = split (is_sep fl) d ++ tail.
Proof.
  intros Htail. revert d.
  induction Htail as [|t tail Ht _ IH]; intros d.
  - simpl. by rewrite app_nil_r.
  - change (Str.join (sep fl) (d :: t :: tail))
      with (d +:+ String (sep_char fl) (Str.join (sep fl) (t :: tail))).
    rewrite split_app_sep by apply is_sep_sep_char.
    rewrite IH. f_equal.
    destruct Ht as (_ & _ & _ & Ht). by rewrite (split_plain _ _ Ht).
Qed.

Lemma fold_norm_step_plain (fl : Flavour) (allow : bool) (tail stack : list string) :
  Forall (plain fl) tail →
  fold_left (norm_step allow) tail stack = rev tail ++ stack.
Proof.
  intros Htail. revert stack.
  induction Htail as [|t tail Ht _ IH]; intros stack; [done|].
  simpl. rewrite IH, <- app_assoc. f_equal.
  destruct Ht as (H1 & H2 & H3 & _). unfold norm_step.
  destruct (decide (t = "" ∨ t = ".")) as [[?|?]|_]; [done..|].
  by destruct (decide (t = "..")).
Qed.

Lemma normalizeString_plain_tail (fl : Flavour) (allow : bool) (xs tail : list string) :
  Forall (plain fl) tail →
  normalizeString allow (xs ++ tail) = normalizeString allow xs ++ tail.
Proof.
  intros Htail. unfold normalizeString.
  rewrite fold_left_app, (fold_norm_step_plain fl) by done.
  by rewrite rev_app_distr, rev_involutive.
Qed.

Lemma join_cons_ne (sp t : string) (l : list string) :
  t ≠ "" → Str.join sp (t :: l) ≠ "".
Proof.
  intros Ht. destruct l as [|u l]; [done|].
  change (Str.join sp (t :: u :: l)) with (t +:+ sp +:+ Str.join sp (u :: l)).
  by intros [? _]%Str.app_eq_nil.
Qed.

Lemma join_app_tail (sp : string) (pre tail : list string) :
  tail ≠ [] → Str.ends_with (Str.join sp (pre ++ tail)) (Str.join sp tail).
Proof.
  intros Htail. induction pre as [|x pre IH].
  - by exists "".
  - destruct IH as [q Hq]. exists (x +:+ sp +:+ q).
    destruct (pre ++ tail) as [|y l] eqn:E.
    { by apply app_eq_nil in E as [_ ?]. }
    change (Str.join sp ((x :: pre) ++ tail)) with (Str.join sp (x :: pre ++ tail)).
    rewrite E.
    change (Str.join sp (x :: y :: l)) with (x +:+ sp +:+ Str.join sp (y :: l)).
    by rewrite Hq, !Str.app_assoc.
Qed.

Lemma last_no_char (p : ascii → bool) (s : string) (c : ascii) :
  Str.has_char p s = false → Str.last s = Some c → p c = false.
Proof.
  induction s as [|x s IH]; simpl; [done|].
  intros [Hx Hs]%orb_false_iff. destruct s; [by intros [= <-] | by apply IH].
Qed.

Lemma last_join_plain (fl : Flavour) (tail : list string) :
  tail ≠ [] → Forall (plain fl) tail →
  ends_with_sep fl (Str.join (sep fl) tail) = false.
Proof.
  intros Hne Htail. unfold ends_with_sep.
  induction Htail as [|t tail Ht Htail IH]; [done|].
  destruct tail as [|u tail].
  - simpl. destruct Ht as (_ & _ & _ & Ht).
    destruct (Str.last t) as [c|] eqn:E; [|done].
    by apply (last_no_char _ _ _ Ht).
  - change (Str.join (sep fl) (t :: u :: tail))
      with (t +:+ sep fl +:+ Str.join (sep fl) (u :: tail)).
    assert (Str.join (sep fl) (u :: tail) ≠ "") as Hj.
    { apply join_cons_ne. by apply Forall_inv in Htail as (? & _). }
    rewrite !Str.last_app; [by apply IH | done |].
    by intros [_ ?]%Str.app_eq_nil.
Qed.

(** Whatever the first argument is, joining plain names after it gives
    a path that ends in those names, separated by the separator. *)
Lemma join_plain_tail (fl : Flavour) (d : string) (tail : list string) :
  tail ≠ [] → Forall (plain fl) tail →
  Str.ends_with (join fl (d :: tail)) (Str.join (sep fl) tail).
Proof.
  intros Hne Htail. unfold join.
  assert (∃ xs, filter (λ s, s ≠ "") (d :: tail) ≠ []
    ∧ Str.ends_with (Str.join (sep fl) (filter (λ s, s ≠ "") (d :: tail)))
        (Str.join (sep fl) tail)
    ∧ split (is_sep fl) (Str.join (sep fl) (filter (λ s, s ≠ "") (d :: tail)))
      = xs ++ tail) as (xs & Hparts & Hend & Hsplit).
  { assert (filter (λ s, s ≠ "") tail = tail) as Hf.
    { clear Hne. induction Htail as [|t tail Ht _ IH]; [done|].
      rewrite filter_cons_True by apply Ht. by rewrite IH. }
    rewrite filter_cons, Hf. destruct (decide (d ≠ "")).
    - exists (split (is_sep fl) d). split_and!; [done| |by apply split_join].
      by apply (join_app_tail _ [d]).
    - exists []. destruct tail as [|t tail]; [done|].
      split_and!; [done|by exists ""|].
      rewrite split_join by by eapply Forall_inv_tail.
      apply Forall_inv in Htail as (_ & _ & _ & Ht).
      by rewrite (split_plain _ _ Ht). }
  destruct (filter (λ s, s ≠ "") (d :: tail)) as [|p0 parts] eqn:Ef; [done|].
  clear Hparts. set (joined := Str.join (sep fl) (p0 :: parts)) in *.
  assert (Str.join (sep fl) tail ≠ "") as Hj.
  { destruct tail as [|t tail]; [done|].
    apply join_cons_ne. by apply Forall_inv in Htail as (? & _). }
  assert (ends_with_sep fl joined = false) as Htrail.
  { destruct Hend as [q ->]. unfold ends_with_sep.
    rewrite Str.last_app by done. by apply last_join_plain. }
  unfold normalize.
  destruct (decide (joined = "")) as [E|_].
  { destruct Hend as [q Hq]. rewrite E in Hq. symmetry in Hq.
    by apply Str.app_eq_nil in Hq as [_ ?]. }
  rewrite Hsplit, Htrail, (normalizeString_plain_tail fl) by done.
  destruct (join_app_tail (sep fl)
    (normalizeString (negb (starts_with_sep fl joined)) xs) tail Hne) as [q Hq].
  rewrite Hq.
  destruct (decide (q +:+ Str.join (sep fl) tail = "")) as [E|_].
  { by apply Str.app_eq_nil in E as [_ ?]. }
  destruct (starts_with_sep fl joined).
  - exists (sep fl +:+ q). by rewrite Str.app_assoc.
  - by exists q.
Qed.

End Path.

(** ** JavaScript values *)

(** Function values.  The closures the loader builds are kept as
    data: [WithErrorHandling fn functionName] is the function returned
    by [withErrorHandling(fn, functionName)], [GetPlatformInfo] and
    [HealthCheck] are the two arrow functions of [audifyExports], and
    [Native id] is a function of the native addon. *)
Inductive FunRef : Type :=
| Native (id : string)
| WithErrorHandling (fn : FunRef) (functionName : string)
| GetPlatformInfo
| HealthCheck.

(** [VErr message] is an [Error] instance ([new Error(message)], or an
    error raised by the runtime); [VProto name] is the member [name]
    that every plain object inherits from [Object.prototype], met when
    a key that is no own property is read. *)
#[warnings="-register-all"]
Inductive JsVal : Type :=
| VUndef
| VBool (b : bool)
| VNum (n : Z)
| VStr (s : string)
| VObj (props : list (string * JsVal))
| VErr (message : string)
| VFun (f : FunRef)
| VProto (name : string).

(** The outcome of an evaluation: a value, or a thrown value. *)
Inductive Result (A : Type) : Type :=
| Ret (a : A)
| Throw (e : JsVal).
Arguments Ret {A} a.
Arguments Throw {A} e.

Definition dquote : string := String (ascii_of_nat 34) "".

Module Js.

(** ToBoolean. *)
Definition truthy (v : JsVal) : bool :=
  match v with
  | VUndef => false
  | VBool b => b
  | VNum n => negb (n =? 0)
  | VStr s => negb (bool_decide (s = ""))
  | VObj _ | VErr _ | VFun _ | VProto _ => true
  end.

(** ToString, as a template literal applies it to an interpolated
    value.  The source text of a function is not modelled. *)
Definition to_string (v : JsVal) : string :=
  match v with
  | VUndef => "undefined"
  | VBool b => if b then "true" else "false"
  | VNum n => NilEmpty.string_of_int (Z.to_int n)
  | VStr s => s
  | VObj _ => "[object Object]"
  | VErr m => if decide (m = "") then "Error" else "Error: " +:+ m
  | VFun _ | VProto _ => "function () { [native code] }"
  end.

(** The value is an object (functions and errors are objects). *)
Definition is_object (v : JsVal) : bool :=
  match v with
  | VObj _ | VErr _ | VFun _ | VProto _ => true
  | VUndef | VBool _ | VNum _ | VStr _ => false
  end.

End Js.

(** Plain objects: the own enumerable properties in insertion order,
    which is what a spread and [Object.keys] see.  (Keys are names;
    integer-like keys, which JavaScript orders first, do not occur.) *)
Module Obj.

Definition Props : Type := list (string * JsVal).

Fixpoint own (o : Props) (k : string) : option JsVal :=
  match o with
  | [] => None
  | (k', v) :: o' => if decide (k' = k) then Some v else own o' k
  end.

(** [o[k] = v]: an existing key keeps its place. *)
Fixpoint set (o : Props) (k : string) (v : JsVal) : Props :=
  match o with
  | [] => [(k, v)]
  | (k', v') :: o' => if decide (k' = k) then (k, v) :: o' else (k', v') :: set o' k v
  end.

(** [Object.keys(o)]. *)
Definition keys (o : Props) : list string := o.*1.

(** An object literal [{k1: v1, ...}] (a spread contributes its
    properties in place): later entries overwrite earlier ones. *)
Definition literal (kvs : list (string * JsVal)) : Props :=
  fold_left (λ o kv, set o kv.1 kv.2) kvs [].

(** The members of [Object.prototype]. *)
Definition object_prototype : list string :=
  [ "constructor"; "__defineGetter__"; "__defineSetter__"; "hasOwnProperty";
    "__lookupGetter__"; "__lookupSetter__"; "isPrototypeOf";
    "propertyIsEnumerable"; "toString"; "valueOf"; "__proto__";
    "toLocaleString" ].

(** [o[k]] on a plain object: the own property, else the inherited
    one, else [undefined]. *)
Definition get (o : Props) (k : string) : JsVal :=
  match own o k with
  | Some v => v
  | None => if decide (k ∈ object_prototype) then VProto k else VUndef
  end.

Lemma own_None (o : Props) (k : string) : own o k = None ↔ k ∉ keys o.
Proof.
  unfold keys. induction o as [|[k' v] o IH]; simpl.
  - split; [intros _; apply not_elem_of_nil | done].
  - rewrite not_elem_of_cons. destruct (decide (k' = k)) as [->|Hne].
    + split; [done | by intros [? _]].
    + rewrite IH. split; [by intros ? | by intros [_ ?]]; auto.
Qed.

Lemma own_Some_key (o : Props) (k : string) (v : JsVal) :
  own o k = Some v → k ∈ keys o.
Proof.
  intros H. destruct (decide (k ∈ keys o)) as [|Hn]; [done|].
  apply own_None in Hn. congruence.
Qed.

Lemma own_set (o : Props) (k k' : string) (v : JsVal) :
  own (set o k v) k' = if decide (k = k') then Some v else own o k'.
Proof.
  induction o as [|[k0 v0] o IH]; simpl.
  - done.
  - destruct (decide (k0 = k)) as [->|Hne]; simpl.
    + by destruct (decide (k = k')).
    + rewrite IH. destruct (decide (k0 = k')) as [->|]; [|done].
      by destruct (decide (k = k')).
Qed.

Lemma keys_set (o : Props) (k k' : string) (v : JsVal) :
  k' ∈ keys (set o k v) ↔ k' = k ∨ k' ∈ keys o.
Proof.
  unfold keys. induction o as [|[k0 v0] o IH]; simpl.
  - rewrite list_elem_of_singleton, elem_of_nil. tauto.
  - destruct (decide (k0 = k)) as [->|Hne]; simpl.
    + rewrite !elem_of_cons. tauto.
    + rewrite !elem_of_cons, IH. tauto.
Qed.

Lemma keys_fold_set (kvs : list (string * JsVal)) (o : Props) (k : string) :
  k ∈ keys (fold_left (λ o kv, set o kv.1 kv.2) kvs o)
  ↔ k ∈ kvs.*1 ∨ k ∈ keys o.
Proof.
  revert o. induction kvs as [|[k0 v0] kvs IH]; intros o; simpl.
  - rewrite elem_of_nil. tauto.
  - rewrite IH, keys_set, elem_of_cons. tauto.
Qed.

Lemma keys_literal (kvs : list (string * JsVal)) (k : string) :
  k ∈ keys (literal kvs) ↔ k ∈ kvs.*1.
Proof.
  unfold literal. rewrite keys_fold_set.
  change (keys []) with (@nil string). rewrite elem_of_nil. tauto.
Qed.

End Obj.

(** ** The host: operating system, process, file system *)

(** An octal literal, [0o755] being [octal [7; 5; 5]]. *)
Definition octal (digits : list Z) : Z := fold_left (λ acc d, 8 * acc + d) digits 0.

(** A file as [fs] sees it: permission bits, owner and group, and
    what the file system holds against a change of the file's
    attributes, whoever asks: [None] when it allows one, else the error
    it answers with ("EROFS: read-only file system" on a read-only
    mount, "EPERM: operation not permitted" for an immutable file). *)
Record File : Type := mkFileOn {
  f_mode : Z;
  f_uid : Z;
  f_gid : Z;
  f_refusal : option string;
}.

(** A file on a file system that lets its attributes be changed. *)
Definition mkFile (mode uid gid : Z) : File := mkFileOn mode uid gid None.

(** The paths that resolve for this process, each with its file. *)
Abbreviation FS := (gmap string File).

Record Env : Type := mkEnv {
  os_platform : string;          (* os.platform(), process.platform *)
  os_arch : string;              (* os.arch() *)
  dirname : string;              (* __dirname of the running script *)
  vscode_pid : JsVal;            (* process.env.VSCODE_PID *)
  proc_uid : Z;                  (* the process's user *)
  proc_groups : list Z;          (* and its groups *)
}.

Inductive Level : Type := LOG | WARN | ERROR.

(** One call of [console.log], [console.warn] or [console.error] with
    its arguments. *)
Definition LogLine : Type := Level * list JsVal.

Definition is_win32 (env : Env) : bool := bool_decide (os_platform env = "win32").

Definition path_flavour (env : Env) : Path.Flavour :=
  if is_win32 env then Path.Win32 else Path.Posix.

(** [access(path, R_OK)] on an existing file.  POSIX: the superuser may
    read; otherwise the owner, group or other read bit decides.
    Windows: every existing file passes. *)
Definition may_read (env : Env) (f : File) : bool :=
  if is_win32 env then true
  else if proc_uid env =? 0 then true
  else if proc_uid env =? f_uid f then Z.testbit (f_mode f) 8
  else if bool_decide (f_gid f ∈ proc_groups env) then Z.testbit (f_mode f) 5
  else Z.testbit (f_mode f) 2.

(** [chmod] is for the owner and the superuser. *)
Definition may_chmod (env : Env) (f : File) : bool :=
  (proc_uid env =? 0) || (proc_uid env =? f_uid f).

(** The error of [chmod] on an existing file, if any: the file system's
    own refusal comes first, then the ownership test. *)
Definition chmod_error (env : Env) (f : File) : option string :=
  match f_refusal f with
  | Some code => Some code
  | None =>
      if may_chmod env f then None else Some "EPERM: operation not permitted"
  end.

(** ** The world and the evaluation monad *)

Section Loader.

(** The native addon is opaque: its functions act on a state of its
    own, and on the rest of the world, in a way that is not known. *)
Variable NState : Type.

(** What a run can read and change: the file system, the console, the
    addon's state.  [w_sched] is what other processes do to the file
    system meanwhile: before each [fs] call of this process, the next
    change of the schedule is applied. *)
Record World : Type := mkWorld {
  w_fs : FS;
  w_sched : list (FS → FS);
  w_log : list LogLine;
  w_native : NState;
}.

Definition M (A : Type) : Type := World → Result A * World.

Definition ret {A : Type} (a : A) : M A := λ w, (Ret a, w).

Definition throw {A : Type} (e : JsVal) : M A := λ w, (Throw e, w).

Definition bind {A B : Type} (m : M A) (k : A → M B) : M B :=
  λ w, match m w with
       | (Ret a, w') => k a w'
       | (Throw e, w') => (Throw e, w')
       end.

(** [try { body } catch (error) { handler }]. *)
Definition try_catch {A : Type} (body : M A) (handler : JsVal → M A) : M A :=
  λ w, match body w with
       | (Ret a, w') => (Ret a, w')
       | (Throw e, w') => handler e w'
       end.

Notation "x <- m ;; k" := (bind m (λ x, k))
  (at level 100, m at next level, right associativity).
Notation "m ;; k" := (bind m (λ _, k))
  (at level 100, right associativity).

(** *** console *)

Definition console (lvl : Level) (args : list JsVal) : M unit :=
  λ w, (Ret (), mkWorld (w_fs w) (w_sched w) (w_log w ++ [(lvl, args)]) (w_native w)).

Definition console_log : list JsVal → M unit := console LOG.
Definition console_warn : list JsVal → M unit := console WARN.
Definition console_error : list JsVal → M unit := console ERROR.

(** *** Property read [v.k] *)

Definition js_get (v : JsVal) (k : string) : M JsVal :=
  match v with
  | VUndef =>
      throw (VErr ("Cannot read properties of undefined (reading '" +:+ k +:+ "')"))
  | VObj props => ret (Obj.get props k)
  | VErr message => ret (if decide (k = "message") then VStr message else VUndef)
  | VBool _ | VNum _ | VStr _ | VFun _ | VProto _ => ret VUndef
  end.

(** *** path *)

(** [path.join] checks that every argument is a string. *)
Fixpoint strings_of (args : list JsVal) : option (list string) :=
  match args with
  | [] => Some []
  | VStr s :: rest => cons s <$> strings_of rest
  | _ :: _ => None
  end.

Definition path_join (env : Env) (args : list JsVal) : M string :=
  match strings_of args with
  | Some paths => ret (Path.join (path_flavour env) paths)
  | None =>
      throw (VErr ("The " +:+ dquote +:+ "path" +:+ dquote
                   +:+ " argument must be of type string"))
  end.

(** *** fs *)

(** Another process's next change to the file system, if any. *)
Definition interfere : M unit :=
  λ w, match w_sched w with
       | [] => (Ret (), w)
       | step :: rest => (Ret (), mkWorld (step (w_fs w)) rest (w_log w) (w_native w))
       end.

(** [fs.existsSync(path)]: never throws. *)
Definition existsSync (path : string) : M bool :=
  interfere ;;
  (λ w, (Ret (bool_decide (is_Some (w_fs w !! path))), w)).

Definition fs_error (code syscall path : string) : JsVal :=
  VErr (code +:+ ", " +:+ syscall +:+ " '" +:+ path +:+ "'").

(** [fs.accessSync(path, fs.constants.R_OK)]. *)
Definition accessSync_R_OK (env : Env) (path : string) : M unit :=
  interfere ;;
  (λ w, match w_fs w !! path with
        | None => (Throw (fs_error "ENOENT: no such file or directory" "access" path), w)
        | Some f =>
            if may_read env f then (Ret (), w)
            else (Throw (fs_error "EACCES: permission denied" "access" path), w)
        end).

(** [fs.chmodSync(path, mode)]: the permission bits become [mode]. *)
Definition chmodSync (env : Env) (path : string) (mode : Z) : M unit :=
  interfere ;;
  (λ w, match w_fs w !! path with
        | None => (Throw (fs_error "ENOENT: no such file or directory" "chmod" path), w)
        | Some f =>
            match chmod_error env f with
            | None =>
                (Ret (),
                 mkWorld (<[path := mkFileOn (Z.land mode (octal [7; 7; 7; 7]))
                                      (f_uid f) (f_gid f) (f_refusal f)]> (w_fs w))
                         (w_sched w) (w_log w) (w_native w))
            | Some code => (Throw (fs_error code "chmod" path), w)
            end
        end).

(** ** index.js *)

(** [require(binaryPath)] of the native addon: its exports, or what the
    dynamic loader throws.  [native_call id this args] runs function
    [id] of the addon, called as a function; [native_construct id args]
    is [new] on it, the way the addon's classes are used. *)
Variable require_addon : string → M Obj.Props.
Variable native_call : string → JsVal → list JsVal → M JsVal.
Variable native_construct : string → list JsVal → M JsVal.

Variable env : Env.

Definition PLATFORM_MAP : Obj.Props :=
  [ ("win32-x64", VStr "win32-x64");
    ("win32-ia32", VStr "win32-ia32");
    ("win32-arm64", VStr "win32-arm64");
    ("darwin-x64", VStr "darwin-x64");
    ("darwin-arm64", VStr "darwin-arm64");
    ("linux-x64", VStr "linux-x64");
    ("linux-arm64", VStr "linux-arm64");
    ("linux-arm", VStr "linux-arm") ].

Definition OpusApplication : Obj.Props :=
  [ ("OPUS_APPLICATION_VOIP", VNum 2048);
    ("OPUS_APPLICATION_AUDIO", VNum 2049);
    ("OPUS_APPLICATION_RESTRICTED_LOWDELAY", VNum 2051) ].

Definition RtAudioApi : Obj.Props :=
  [ ("RTAUDIO_API_UNSPECIFIED", VNum 0);
    ("RTAUDIO_API_LINUX_ALSA", VNum 1);
    ("RTAUDIO_API_LINUX_PULSE", VNum 2);
    ("RTAUDIO_API_LINUX_OSS", VNum 3);
    ("RTAUDIO_API_UNIX_JACK", VNum 4);
    ("RTAUDIO_API_MACOSX_CORE", VNum 5);
    ("RTAUDIO_API_WINDOWS_WASAPI", VNum 6);
    ("RTAUDIO_API_WINDOWS_ASIO", VNum 7);
    ("RTAUDIO_API_WINDOWS_DS", VNum 8);
    ("RTAUDIO_API_RTAUDIO_DUMMY", VNum 9) ].

Definition RtAudioFormat : Obj.Props :=
  [ ("RTAUDIO_FORMAT_SINT8", VNum 1);
    ("RTAUDIO_FORMAT_SINT16", VNum 2);
    ("RTAUDIO_FORMAT_SINT24", VNum 4);
    ("RTAUDIO_FORMAT_SINT32", VNum 8);
    ("RTAUDIO_FORMAT_FLOAT32", VNum 16);
    ("RTAUDIO_FORMAT_FLOAT64", VNum 32) ].

Definition RtAudioStreamFlags : Obj.Props :=
  [ ("RTAUDIO_FLAGS_NONINTERLEAVED", VNum 1);
    ("RTAUDIO_FLAGS_MINIMIZE_LATENCY", VNum 2);
    ("RTAUDIO_FLAGS_HOG_DEVICE", VNum 4);
    ("RTAUDIO_FLAGS_SCHEDULE_REALTIME", VNum 8);
    ("RTAUDIO_FLAGS_ALSA_USE_DEFAULT", VNum 16);
    ("RTAUDIO_FLAGS_JACK_DONT_CONNECT", VNum 32) ].

Definition RtAudioErrorType : Obj.Props :=
  [ ("RTAUDIO_ERROR_WARNING", VNum 0);
    ("RTAUDIO_ERROR_DEBUG_WARNING", VNum 1);
    ("RTAUDIO_ERROR_UNSPECIFIED", VNum 2);
    ("RTAUDIO_ERROR_NO_DEVICES_FOUND", VNum 3);
    ("RTAUDIO_ERROR_INVALID_DEVICE", VNum 4);
    ("RTAUDIO_ERROR_MEMORY_ERROR", VNum 5);
    ("RTAUDIO_ERROR_INVALID_PARAMETER", VNum 6);
    ("RTAUDIO_ERROR_INVALID_USE", VNum 7);
    ("RTAUDIO_ERROR_DRIVER_ERROR", VNum 8);
    ("RTAUDIO_ERROR_SYSTEM_ERROR", VNum 9);
    ("RTAUDIO_ERROR_THREAD_ERROR", VNum 10) ].

(** The template literal [`${platform}-${arch}`]. *)
Definition platform_key : string := os_platform env +:+ "-" +:+ os_arch env.

Definition unsupported_platform_message (key : string) : string :=
  "[Audify-JS-Plus] Unsupported platform: " +:+ key +:+ ". "
  +:+ "Supported platforms: " +:+ Str.join ", " (Obj.keys PLATFORM_MAP).

Definition getBinaryPath : M string :=
  let platform := os_platform env in
  let arch := os_arch env in
  let key := platform +:+ "-" +:+ arch in
  console_log [VStr ("[Audify-JS-Plus] Detecting platform: " +:+ key)] ;;
  let platformFolder := Obj.get PLATFORM_MAP key in
  if negb (Js.truthy platformFolder) then
    let supportedPlatforms := Str.join ", " (Obj.keys PLATFORM_MAP) in
    throw (VErr ("[Audify-JS-Plus] Unsupported platform: " +:+ key +:+ ". "
                 +:+ "Supported platforms: " +:+ supportedPlatforms))
  else
    binaryPath <- path_join env
      [VStr (dirname env); VStr "prebuilds"; platformFolder;
       VStr "build"; VStr "Release"; VStr "audify.node"] ;;
    console_log [VStr ("[Audify-JS-Plus] Binary path: " +:+ binaryPath)] ;;
    ret binaryPath.

Definition verifyBinary (binaryPath : string) : M bool :=
  try_catch
    (found <- existsSync binaryPath ;;
     if negb found then
       console_error [VStr ("[Audify-JS-Plus] Binary not found: " +:+ binaryPath)] ;;
       ret false
     else
       accessSync_R_OK env binaryPath ;;
       console_log [VStr ("[Audify-JS-Plus] Binary verified: " +:+ binaryPath)] ;;
       ret true)
    (λ error,
       message <- js_get error "message" ;;
       console_error [VStr "[Audify-JS-Plus] Binary verification failed:"; message] ;;
       ret false).

Definition cannot_load_message (binaryPath : string) : string :=
  "[Audify-JS-Plus] Cannot load binary: " +:+ binaryPath +:+ ". "
  +:+ "Please ensure the binary exists and is accessible.".

Definition loadNativeModule : M Obj.Props :=
  binaryPath <- getBinaryPath ;;
  verified <- verifyBinary binaryPath ;;
  if negb verified then
    throw (VErr ("[Audify-JS-Plus] Cannot load binary: " +:+ binaryPath +:+ ". "
                 +:+ "Please ensure the binary exists and is accessible."))
  else
    try_catch
      (console_log [VStr "[Audify-JS-Plus] Loading native module..."] ;;
       nativeModule <- require_addon binaryPath ;;
       console_log [VStr "[Audify-JS-Plus] Native module loaded successfully"] ;;
       ret nativeModule)
      (λ error,
         console_error [VStr "[Audify-JS-Plus] Failed to load native module:"; error] ;;
         message <- js_get error "message" ;;
         throw (VErr ("[Audify-JS-Plus] Failed to load native module from "
                      +:+ binaryPath +:+ ": " +:+ Js.to_string message))).

(** The module-level [try { rawAudify = loadNativeModule(); } catch]. *)
Definition load_rawAudify : M Obj.Props :=
  try_catch loadNativeModule
    (λ error,
       message <- js_get error "message" ;;
       console_error [VStr "[Audify-JS-Plus] Initialization failed:"; message] ;;
       if Js.truthy (vscode_pid env) then
         message <- js_get error "message" ;;
         throw (VErr ("[Audify-JS-Plus] Failed to initialize in VS Code extension. "
                      +:+ "This might be due to missing native binaries or platform incompatibility. "
                      +:+ "Original error: " +:+ Js.to_string message))
       else throw error).

Definition getPlatformInfo : M JsVal :=
  binaryPath <- getBinaryPath ;;
  ret (VObj (Obj.literal
    [ ("platform", VStr (os_platform env));
      ("arch", VStr (os_arch env));
      ("key", VStr (os_platform env +:+ "-" +:+ os_arch env));
      ("binaryPath", VStr binaryPath) ])).

Definition healthCheck : M JsVal :=
  try_catch
    (binaryPath <- getBinaryPath ;;
     exists_ <- verifyBinary binaryPath ;;
     ret (VObj (Obj.literal
       [ ("status", VStr (if exists_ then "healthy" else "unhealthy"));
         ("platform", VStr (os_platform env +:+ "-" +:+ os_arch env));
         ("binaryPath", VStr binaryPath);
         ("binaryExists", VBool exists_) ])))
    (λ error,
       message <- js_get error "message" ;;
       ret (VObj (Obj.literal
         [ ("status", VStr "error");
           ("error", message);
           ("platform", VStr (os_platform env +:+ "-" +:+ os_arch env)) ]))).

(** Calling a function value: [f.apply(this, args)].  The function
    returned by [withErrorHandling] forwards [this] and the arguments,
    logs what the call throws and throws it again. *)
Fixpoint call (f : FunRef) (this : JsVal) (args : list JsVal) : M JsVal :=
  match f with
  | Native id => native_call id this args
  | WithErrorHandling fn functionName =>
      try_catch (call fn this args)
        (λ error,
           console_error
             [VStr ("[Audify-JS-Plus] Error in " +:+ functionName +:+ ":"); error] ;;
           throw error)
  | GetPlatformInfo => getPlatformInfo
  | HealthCheck => healthCheck
  end.

Definition withErrorHandling (fn : FunRef) (functionName : string) : FunRef :=
  WithErrorHandling fn functionName.

(** Constructing with a function value: [new f(...args)], [callee]
    being the text of the expression after [new].  A function of the
    addon is constructed by the addon.  The function returned by
    [withErrorHandling] is an ordinary function: [new] makes a fresh
    object and runs the body with it as [this], so that [fn] is called
    with [fn.apply(this, args)], not constructed; the result is what
    the body returns when that is an object, else the fresh object
    (whose prototype, the wrapper's own empty [prototype], is not told
    apart from a plain object's here).  An arrow function is no
    constructor. *)
Definition construct (callee : string) (f : FunRef) (args : list JsVal) : M JsVal :=
  match f with
  | Native id => native_construct id args
  | WithErrorHandling _ _ =>
      let this := VObj [] in
      result <- call f this args ;;
      ret (if Js.is_object result then result else this)
  | GetPlatformInfo | HealthCheck =>
      throw (VErr (callee +:+ " is not a constructor"))
  end.

(** [package.json], as far as the loader reads it. *)
Definition package_json : Obj.Props :=
  [ ("name", VStr "@voicehype/audify-plus"); ("version", VStr "2.0.1") ].

(** The object literal [audifyExports]. *)
Definition audifyExports_literal (rawAudify : Obj.Props) : Obj.Props :=
  Obj.literal
    (rawAudify ++
     [ ("OpusApplication", VObj OpusApplication);
       ("RtAudioApi", VObj RtAudioApi);
       ("RtAudioFormat", VObj RtAudioFormat);
       ("RtAudioStreamFlags", VObj RtAudioStreamFlags);
       ("RtAudioErrorType", VObj RtAudioErrorType);
       ("getPlatformInfo", VFun GetPlatformInfo);
       ("version",
         let version := Obj.get package_json "version" in
         if Js.truthy version then version else VStr "1.0.0");
       ("healthCheck", VFun HealthCheck) ]).

(** The [forEach] over [Object.keys(rawAudify)]; [rawAudify], the
    exports object of an addon, is truthy. *)
Definition wrap_native_functions (rawAudify audifyExports : Obj.Props) : Obj.Props :=
  fold_left
    (λ exports key,
       match Obj.get rawAudify key with
       | VFun fn => Obj.set exports key (VFun (withErrorHandling fn key))
       | _ => exports
       end)
    (Obj.keys rawAudify) audifyExports.

Definition audifyExports (rawAudify : Obj.Props) : Obj.Props :=
  wrap_native_functions rawAudify (audifyExports_literal rawAudify).

(** Evaluating the module: [module.exports], or what it throws. *)
Definition index_js : M Obj.Props :=
  rawAudify <- load_rawAudify ;;
  ret (audifyExports rawAudify).

(** ** postinstall.js *)

Definition setBinaryPermissions (binaryPath : string) : M bool :=
  if bool_decide (os_platform env = "win32") then
    console_log [VStr "[Audify-JS-Plus] Windows detected, skipping permission setup"] ;;
    ret true
  else
    try_catch
      (found <- existsSync binaryPath ;;
       if negb found then
         console_warn [VStr ("[Audify-JS-Plus] Warning: Binary not found at " +:+ binaryPath)] ;;
         ret false
       else
         chmodSync env binaryPath (octal [7; 5; 5]) ;;
         console_log [VStr ("[Audify-JS-Plus] Set executable permissions for " +:+ binaryPath)] ;;
         ret true)
      (λ error,
         message <- js_get error "message" ;;
         console_error [VStr "[Audify-JS-Plus] Failed to set permissions:"; message] ;;
         ret false).

(** ** Helper notions for the statements *)

(** The artifact path the table gives for this platform, if any. *)
Definition resolved_path : option string :=
  match Obj.own PLATFORM_MAP platform_key with
  | Some (VStr platformFolder) =>
      Some (Path.join (path_flavour env)
              [dirname env; "prebuilds"; platformFolder; "build"; "Release"; "audify.node"])
  | _ => None
  end.

(** The path exists and this process may read it. *)
Definition readable (fs : FS) (path : string) : bool :=
  match fs !! path with
  | Some f => may_read env f
  | None => false
  end.

(** The world once the next scheduled change of the file system has
    happened. *)
Definition after_interfere (w : World) : World :=
  match w_sched w with
  | [] => w
  | step :: rest => mkWorld (step (w_fs w)) rest (w_log w) (w_native w)
  end.

(** The world with one more console line. *)
Definition logged (w : World) (line : LogLine) : World :=
  mkWorld (w_fs w) (w_sched w) (w_log w ++ [line]) (w_native w).

(** ** Resolving the platform *)

Lemma platform_key_not_inherited : platform_key ∉ Obj.object_prototype.
Proof.
  assert (Str.has_char (λ c, bool_decide (c = "-"%char)) platform_key = true) as Hk.
  { unfold platform_key. rewrite !Str.has_char_app. simpl. apply orb_true_r. }
  intros Hin.
  assert (Forall (λ n, Str.has_char (λ c, bool_decide (c = "-"%char)) n = false)
            Obj.object_prototype) as Hall by (repeat constructor).
  rewrite Forall_forall in Hall. specialize (Hall _ Hin). congruence.
Qed.

Lemma get_PLATFORM_MAP :
  Obj.get PLATFORM_MAP platform_key = default VUndef (Obj.own PLATFORM_MAP platform_key).
Proof.
  unfold Obj.get. destruct (Obj.own PLATFORM_MAP platform_key); [done|].
  by rewrite decide_False by apply platform_key_not_inherited.
Qed.

(** The table maps each of its keys to a directory of the same name,
    and that name is a plain path segment. *)
Lemma own_PLATFORM_MAP (k : string) (v : JsVal) :
  Obj.own PLATFORM_MAP k = Some v →
  v = VStr k ∧ ∀ fl, Path.plain fl k.
Proof.
  unfold PLATFORM_MAP. simpl.
  repeat (destruct (decide (_ = k)) as [<-|_];
          [intros [= <-]; split; [done | by intros []; compute_done] |]).
  done.
Qed.

Definition detect_line (key : string) : LogLine :=
  (LOG, [VStr ("[Audify-JS-Plus] Detecting platform: " +:+ key)]).

Definition path_line (binaryPath : string) : LogLine :=
  (LOG, [VStr ("[Audify-JS-Plus] Binary path: " +:+ binaryPath)]).

Lemma getBinaryPath_supported (w : World) (path : string) :
  resolved_path = Some path →
  getBinaryPath w
  = (Ret path, logged (logged w (detect_line platform_key)) (path_line path)).
Proof.
  unfold resolved_path. intros Hres.
  destruct (Obj.own PLATFORM_MAP platform_key) as [v|] eqn:Hown; [|done].
  destruct (own_PLATFORM_MAP _ _ Hown) as [-> Hplain].
  injection Hres as <-.
  unfold getBinaryPath. fold platform_key.
  rewrite get_PLATFORM_MAP, Hown. simpl.
  destruct (Hplain Path.Posix) as (Hne & _).
  rewrite bool_decide_eq_false_2 by done. simpl.
  reflexivity.
Qed.

Lemma resolved_path_None : resolved_path = None ↔ platform_key ∉ Obj.keys PLATFORM_MAP.
Proof.
  unfold resolved_path. rewrite <- Obj.own_None.
  destruct (Obj.own PLATFORM_MAP platform_key) as [v|] eqn:Hown; [|done].
  by destruct (own_PLATFORM_MAP _ _ Hown) as [-> _].
Qed.

Lemma getBinaryPath_unsupported (w : World) :
  resolved_path = None →
  getBinaryPath w
  = (Throw (VErr (unsupported_platform_message platform_key)),
     logged w (detect_line platform_key)).
Proof.
  intros Hnone%resolved_path_None%Obj.own_None.
  unfold getBinaryPath. fold platform_key.
  by rewrite get_PLATFORM_MAP, Hnone.
Qed.

(** ** Verifying the artifact *)

Definition not_found_line (binaryPath : string) : LogLine :=
  (ERROR, [VStr ("[Audify-JS-Plus] Binary not found: " +:+ binaryPath)]).

Definition verified_line (binaryPath : string) : LogLine :=
  (LOG, [VStr ("[Audify-JS-Plus] Binary verified: " +:+ binaryPath)]).

Definition verification_failed_line (message : string) : LogLine :=
  (ERROR, [VStr "[Audify-JS-Plus] Binary verification failed:"; VStr message]).

(** The message of the error [fs.accessSync(path, R_OK)] throws in
    file system [fs], if it throws. *)
Definition access_error (fs : FS) (path : string) : option string :=
  match fs !! path with
  | None => Some ("ENOENT: no such file or directory, access '" +:+ path +:+ "'")
  | Some f =>
      if may_read env f then None
      else Some ("EACCES: permission denied, access '" +:+ path +:+ "'")
  end.

Lemma interfere_eq (w : World) : interfere w = (Ret (), after_interfere w).
Proof. unfold interfere, after_interfere. by destruct (w_sched w). Qed.

Lemma after_interfere_quiet (w : World) : w_sched w = [] → after_interfere w = w.
Proof. unfold after_interfere. by intros ->. Qed.

Lemma existsSync_eq (path : string) (w : World) :
  existsSync path w
  = (Ret (bool_decide (is_Some (w_fs (after_interfere w) !! path))), after_interfere w).
Proof. unfold existsSync, bind. by rewrite interfere_eq. Qed.

Lemma accessSync_eq (path : string) (w : World) :
  accessSync_R_OK env path w
  = (match access_error (w_fs (after_interfere w)) path with
     | None => Ret ()
     | Some message => Throw (VErr message)
     end, after_interfere w).
Proof.
  unfold accessSync_R_OK, bind, access_error. rewrite interfere_eq.
  destruct (w_fs (after_interfere w) !! path) as [f|]; [|done].
  by destruct (may_read env f).
Qed.

(** What [verifyBinary] returns and logs, in every world: [w1] is the
    world the existence check sees, [w2] the one the readability check
    sees. *)
Lemma verifyBinary_eq (path : string) (w : World) :
  verifyBinary path w
  = let w1 := after_interfere w in
    if bool_decide (is_Some (w_fs w1 !! path)) then
      let w2 := after_interfere w1 in
      match access_error (w_fs w2) path with
      | None => (Ret true, logged w2 (verified_line path))
      | Some message => (Ret false, logged w2 (verification_failed_line message))
      end
    else (Ret false, logged w1 (not_found_line path)).
Proof.
  unfold verifyBinary, try_catch, bind. rewrite existsSync_eq. simpl.
  destruct (bool_decide (is_Some (w_fs (after_interfere w) !! path))); simpl; [|done].
  rewrite accessSync_eq.
  by destruct (access_error (w_fs (after_interfere (after_interfere w))) path).
Qed.

(** With no other process at work, the two checks see the same file
    system. *)
Lemma verifyBinary_quiet (path : string) (w : World) :
  w_sched w = [] →
  verifyBinary path w
  = (Ret (readable (w_fs w) path),
     logged w
       (match w_fs w !! path with
        | None => not_found_line path
        | Some _ =>
            match access_error (w_fs w) path with
            | None => verified_line path
            | Some message => verification_failed_line message
            end
        end)).
Proof.
  intros Hq. rewrite verifyBinary_eq. simpl.
  rewrite !after_interfere_quiet by done.
  unfold readable, access_error.
  destruct (w_fs w !! path) as [f|] eqn:E.
  - rewrite bool_decide_eq_true_2 by by eexists.
    by destruct (may_read env f).
  - rewrite bool_decide_eq_false_2; [done|]. by intros [? ?].
Qed.

Lemma verifyBinary_total (path : string) (w : World) :
  ∃ b w', verifyBinary path w = (Ret b, w').
Proof.
  rewrite verifyBinary_eq. simpl.
  destruct (bool_decide _); [|by eauto].
  destruct (access_error _ _); by eauto.
Qed.

Lemma ends_with_trans (s t u : string) :
  Str.ends_with s t → Str.ends_with t u → Str.ends_with s u.
Proof.
  intros [p ->] [q ->]. exists (p +:+ q). by rewrite Str.app_assoc.
Qed.


(** ** The health check *)

(** The two report shapes [healthCheck] builds. *)
Definition health_report (exists_ : bool) (binaryPath : string) : Obj.Props :=
  [ ("status", VStr (if exists_ then "healthy" else "unhealthy"));
    ("platform", VStr platform_key);
    ("binaryPath", VStr binaryPath);
    ("binaryExists", VBool exists_) ].

Definition error_report (message : string) : Obj.Props :=
  [ ("status", VStr "error");
    ("error", VStr message);
    ("platform", VStr platform_key) ].

Lemma healthCheck_supported (w : World) (path : string) :
  resolved_path = Some path →
  ∃ b w',
    verifyBinary path (logged (logged w (detect_line platform_key)) (path_line path))
    = (Ret b, w')
    ∧ healthCheck w = (Ret (VObj (health_report b path)), w').
Proof.
  intros Hres.
  destruct (verifyBinary_total path
    (logged (logged w (detect_line platform_key)) (path_line path))) as (b & w' & Hv).
  exists b, w'. split; [done|].
  unfold healthCheck, try_catch, bind.
  rewrite (getBinaryPath_supported w path Hres), Hv. by destruct b.
Qed.

Lemma healthCheck_unsupported (w : World) :
  resolved_path = None →
  healthCheck w
  = (Ret (VObj (error_report (unsupported_platform_message platform_key))),
     logged w (detect_line platform_key)).
Proof.
  intros Hres. unfold healthCheck, try_catch, bind.
  by rewrite (getBinaryPath_unsupported w Hres).
Qed.

(** ** Loading *)

Definition init_failed_line (message : string) : LogLine :=
  (ERROR, [VStr "[Audify-JS-Plus] Initialization failed:"; VStr message]).

Definition vscode_message (message : string) : string :=
  "[Audify-JS-Plus] Failed to initialize in VS Code extension. "
  +:+ "This might be due to missing native binaries or platform incompatibility. "
  +:+ "Original error: " +:+ message.

Lemma loadNativeModule_unsupported (w : World) :
  resolved_path = None →
  loadNativeModule w
  = (Throw (VErr (unsupported_platform_message platform_key)),
     logged w (detect_line platform_key)).
Proof.
  intros Hres. unfold loadNativeModule, bind.
  by rewrite (getBinaryPath_unsupported w Hres).
Qed.

Lemma index_js_unsupported (w : World) :
  resolved_path = None →
  index_js w
  = (Throw (VErr (if Js.truthy (vscode_pid env)
                  then vscode_message (unsupported_platform_message platform_key)
                  else unsupported_platform_message platform_key)),
     logged (logged w (detect_line platform_key))
       (init_failed_line (unsupported_platform_message platform_key))).
Proof.
  intros Hres. unfold index_js, load_rawAudify, try_catch, bind.
  rewrite (loadNativeModule_unsupported w Hres). simpl.
  by destruct (Js.truthy (vscode_pid env)).
Qed.

(** When the artifact is not verified, one error is thrown, whatever
    the reason. *)
Lemma loadNativeModule_unverified (w w' : World) (path : string) :
  resolved_path = Some path →
  verifyBinary path (logged (logged w (detect_line platform_key)) (path_line path))
  = (Ret false, w') →
  loadNativeModule w = (Throw (VErr (cannot_load_message path)), w').
Proof.
  intros Hres Hv. unfold loadNativeModule, bind.
  by rewrite (getBinaryPath_supported w path Hres), Hv.
Qed.

Lemma index_js_loaded (w : World) (path : string) (rawAudify : Obj.Props) :
  resolved_path = Some path →
  w_sched w = [] →
  readable (w_fs w) path = true →
  (∀ w1, ∃ w2, require_addon path w1 = (Ret rawAudify, w2)) →
  ∃ w', index_js w = (Ret (audifyExports rawAudify), w').
Proof.
  intros Hres Hq Hread Hreq.
  unfold index_js, load_rawAudify, loadNativeModule, try_catch, bind.
  rewrite (getBinaryPath_supported w path Hres).
  rewrite verifyBinary_quiet by done. simpl. rewrite Hread. simpl.
  match goal with |- context [require_addon path ?w1] =>
    destruct (Hreq w1) as [w2 ->] end.
  simpl. by eexists.
Qed.

(** ** The public surface *)

Definition error_in_line (functionName : string) (error : JsVal) : LogLine :=
  (ERROR, [VStr ("[Audify-JS-Plus] Error in " +:+ functionName +:+ ":"); error]).

Lemma call_withErrorHandling (fn : FunRef) (functionName : string)
    (this : JsVal) (args : list JsVal) (w : World) :
  call (withErrorHandling fn functionName) this args w
  = match call fn this args w with
    | (Ret v, w') => (Ret v, w')
    | (Throw error, w') => (Throw error, logged w' (error_in_line functionName error))
    end.
Proof.
  unfold withErrorHandling. simpl. unfold try_catch.
  by destruct (call fn this args w) as [[v|error] w'].
Qed.

(** One round of the [forEach] that wraps the addon's functions. *)
Definition wrap_step (rawAudify exports : Obj.Props) (key : string) : Obj.Props :=
  match Obj.get rawAudify key with
  | VFun fn => Obj.set exports key (VFun (withErrorHandling fn key))
  | _ => exports
  end.

Lemma keys_wrap_step (rawAudify exports : Obj.Props) (key k : string) :
  k ∈ Obj.keys exports → k ∈ Obj.keys (wrap_step rawAudify exports key).
Proof.
  intros Hk. unfold wrap_step.
  destruct (Obj.get rawAudify key); try done. apply Obj.keys_set. by right.
Qed.

Lemma keys_wrap_native_functions (rawAudify exports : Obj.Props) (k : string) :
  k ∈ Obj.keys exports → k ∈ Obj.keys (wrap_native_functions rawAudify exports).
Proof.
  unfold wrap_native_functions. change (λ exports key, _) with (wrap_step rawAudify).
  generalize (Obj.keys rawAudify) as ks. intros ks. revert exports.
  induction ks as [|key ks IH]; intros exports Hk; simpl; [done|].
  by apply IH, keys_wrap_step.
Qed.

Lemma own_wrap_fold (rawAudify : Obj.Props) (ks : list string)
    (exports : Obj.Props) (k : string) :
  Obj.own (fold_left (wrap_step rawAudify) ks exports) k
  = match Obj.get rawAudify k with
    | VFun fn =>
        if decide (k ∈ ks) then Some (VFun (withErrorHandling fn k))
        else Obj.own exports k
    | _ => Obj.own exports k
    end.
Proof.
  revert exports. induction ks as [|key ks IH]; intros exports; simpl.
  - by destruct (Obj.get rawAudify k).
  - rewrite IH. destruct (Obj.get rawAudify k) as [| | | | | |fn|] eqn:Hk;
      try (unfold wrap_step; destruct (Obj.get rawAudify key) eqn:Hkey; try done;
           rewrite Obj.own_set; destruct (decide (key = k)) as [->|]; [congruence|done]).
    destruct (decide (k ∈ ks)) as [Hin|Hnin].
    + rewrite decide_True; [done|]. by apply elem_of_cons; right.
    + destruct (decide (key = k)) as [->|Hne].
      * rewrite decide_True by by apply elem_of_cons; left.
        unfold wrap_step. by rewrite Hk, Obj.own_set, decide_True.
      * rewrite decide_False by (by intros [->|?]%elem_of_cons).
        unfold wrap_step. destruct (Obj.get rawAudify key); try done.
        by rewrite Obj.own_set, decide_False.
Qed.

(** Each function of the addon is exported wrapped, under its name. *)
Lemma own_audifyExports_function (rawAudify : Obj.Props) (key : string) (fn : FunRef) :
  Obj.own rawAudify key = Some (VFun fn) →
  Obj.own (audifyExports rawAudify) key = Some (VFun (withErrorHandling fn key)).
Proof.
  intros Hown. unfold audifyExports, wrap_native_functions.
  change (λ exports key, _) with (wrap_step rawAudify).
  rewrite own_wrap_fold. unfold Obj.get at 1. rewrite Hown.
  rewrite decide_True; [done|]. by eapply Obj.own_Some_key.
Qed.

(** ** Setting the permissions *)

Definition windows_line : LogLine :=
  (LOG, [VStr "[Audify-JS-Plus] Windows detected, skipping permission setup"]).

Definition permissions_set_line (binaryPath : string) : LogLine :=
  (LOG, [VStr ("[Audify-JS-Plus] Set executable permissions for " +:+ binaryPath)]).

Definition permissions_failed_line (message : string) : LogLine :=
  (ERROR, [VStr "[Audify-JS-Plus] Failed to set permissions:"; VStr message]).

Definition warn_not_found_line (binaryPath : string) : LogLine :=
  (WARN, [VStr ("[Audify-JS-Plus] Warning: Binary not found at " +:+ binaryPath)]).

(** The world with the permission bits of [path] set to [mode]. *)
Definition with_mode (w : World) (path : string) (f : File) (mode : Z) : World :=
  mkWorld (<[path := mkFileOn mode (f_uid f) (f_gid f) (f_refusal f)]> (w_fs w))
          (w_sched w) (w_log w) (w_native w).

Lemma chmodSync_eq (path : string) (mode : Z) (w : World) :
  chmodSync env path mode w
  = match w_fs (after_interfere w) !! path with
    | None =>
        (Throw (fs_error "ENOENT: no such file or directory" "chmod" path),
         after_interfere w)
    | Some f =>
        match chmod_error env f with
        | None =>
            (Ret (),
             with_mode (after_interfere w) path f (Z.land mode (octal [7; 7; 7; 7])))
        | Some code => (Throw (fs_error code "chmod" path), after_interfere w)
        end
    end.
Proof.
  unfold chmodSync, bind. rewrite interfere_eq.
  destruct (w_fs (after_interfere w) !! path) as [f|]; [|done].
  by destruct (chmod_error env f).
Qed.

Lemma setBinaryPermissions_windows (path : string) (w : World) :
  os_platform env = "win32" →
  setBinaryPermissions path w = (Ret true, logged w windows_line).
Proof.
  intros Hwin. unfold setBinaryPermissions.
  by rewrite bool_decide_eq_true_2.
Qed.

Lemma setBinaryPermissions_quiet (path : string) (w : World) :
  os_platform env ≠ "win32" →
  w_sched w = [] →
  setBinaryPermissions path w
  = match w_fs w !! path with
    | None => (Ret false, logged w (warn_not_found_line path))
    | Some f =>
        match chmod_error env f with
        | None =>
            (Ret true,
             logged (with_mode w path f (octal [7; 5; 5])) (permissions_set_line path))
        | Some code =>
            (Ret false,
             logged w (permissions_failed_line (code +:+ ", chmod '" +:+ path +:+ "'")))
        end
    end.
Proof.
  intros Hwin Hq. unfold setBinaryPermissions.
  rewrite bool_decide_eq_false_2 by done.
  unfold try_catch, bind. rewrite existsSync_eq, after_interfere_quiet by done.
  destruct (w_fs w !! path) as [f|] eqn:E.
  - rewrite bool_decide_eq_true_2 by by eexists. simpl.
    unfold chmodSync, bind. rewrite interfere_eq, after_interfere_quiet by done.
    rewrite E. by destruct (chmod_error env f).
  - rewrite bool_decide_eq_false_2; [done|]. by intros [? ?].
Qed.

Lemma setBinaryPermissions_total (path : string) (w : World) :
  ∃ b w', setBinaryPermissions path w = (Ret b, w').
Proof.
  unfold setBinaryPermissions.
  destruct (bool_decide (os_platform env = "win32")); [by eexists _, _|].
  unfold try_catch, bind. rewrite existsSync_eq.
  destruct (bool_decide _); simpl; [|by eexists _, _].
  unfold chmodSync, bind. rewrite interfere_eq.
  destruct (w_fs _ !! path) as [f|]; [|by eexists _, _].
  destruct (chmod_error env f); by eexists _, _.
Qed.

(** ** Specification *)

Lemma supported_resolved :
  platform_key ∈ Obj.keys PLATFORM_MAP → ∃ path, resolved_path = Some path.
Proof.
  intros Hin. destruct resolved_path as [path|] eqn:E; [by eexists|].
  by apply resolved_path_None in E.
Qed.

Lemma supported_not_resolved_None :
  platform_key ∉ Obj.keys PLATFORM_MAP → resolved_path = None.
Proof. apply resolved_path_None. Qed.


(** C2.  [healthCheck] returns a report in every environment and
    every world, and never throws.  On a supported platform (no other
    process changing the file system during the call) the status is
    "healthy" when the artifact exists and is readable, "unhealthy"
    when it is absent, and "unhealthy" when it exists but is not
    readable.  On an unsupported platform the status is "error" and
    the report carries a non-empty error message. *)
Theorem healthCheck_never_raises (w : World) :
  ∃ report w',
    healthCheck w = (Ret (VObj report), w')
    ∧ (platform_key ∈ Obj.keys PLATFORM_MAP → w_sched w = [] →
         ∃ path, resolved_path = Some path
           ∧ (∀ f, w_fs w !! path = Some f → may_read env f = true →
                Obj.own report "status" = Some (VStr "healthy"))
           ∧ (w_fs w !! path = None →
                Obj.own report "status" = Some (VStr "unhealthy"))
           ∧ (∀ f, w_fs w !! path = Some f → may_read env f = false →
                Obj.own report "status" = Some (VStr "unhealthy")))
    ∧ (platform_key ∉ Obj.keys PLATFORM_MAP →
         Obj.own report "status" = Some (VStr "error")
         ∧ ∃ message, Obj.own report "error" = Some (VStr message) ∧ message ≠ "").
Proof.
  destruct resolved_path as [path|] eqn:Hres.
  - destruct (healthCheck_supported w path Hres) as (b & w' & Hv & Hh).
    exists (health_report b path), w'. split_and!; [done| |].
    + intros _ Hq. exists path. split; [done|].
      rewrite verifyBinary_quiet in Hv by done. injection Hv as <- _.
      unfold readable. simpl.
      split_and!; [intros f -> -> | intros -> | intros f -> ->]; done.
    + intros Hn%supported_not_resolved_None. congruence.
  - exists (error_report (unsupported_platform_message platform_key)).
    eexists. split_and!; [by apply healthCheck_unsupported| |].
    + intros [? ?]%supported_resolved. congruence.
    + intros _. split; [done|]. by eexists.
Qed.

(** C3 (as amended).  The report of [healthCheck] has one of two
    shapes.  On a supported platform it is
    {status, platform, binaryPath, binaryExists}: binaryPath holds the
    resolved path, binaryExists is a boolean, and the status is
    "healthy" exactly when binaryExists is true.  On an unsupported
    platform it is {status: "error", error, platform}, with neither a
    path nor an existence field. *)
Theorem healthCheck_report_shape (w : World) :
  ∃ report w',
    healthCheck w = (Ret (VObj report), w')
    ∧ (platform_key ∈ Obj.keys PLATFORM_MAP →
         ∃ (path : string) (b : bool),
           resolved_path = Some path
           ∧ getBinaryPath w = (Ret path, logged (logged w (detect_line platform_key)) (path_line path))
           ∧ report
             = [ ("status", VStr (if b then "healthy" else "unhealthy"));
                 ("platform", VStr platform_key);
                 ("binaryPath", VStr path);
                 ("binaryExists", VBool b) ])
    ∧ (platform_key ∉ Obj.keys PLATFORM_MAP →
         ∃ message : string,
           report
           = [ ("status", VStr "error");
               ("error", VStr message);
               ("platform", VStr platform_key) ]).
Proof.
  destruct resolved_path as [path|] eqn:Hres.
  - destruct (healthCheck_supported w path Hres) as (b & w' & Hv & Hh).
    exists (health_report b path), w'. split_and!; [done| |].
    + intros _. exists path, b. split_and!; [done| |done].
      by apply getBinaryPath_supported.
    + intros Hn%supported_not_resolved_None. congruence.
  - exists (error_report (unsupported_platform_message platform_key)).
    eexists. split_and!; [by apply healthCheck_unsupported| |].
    + intros [? ?]%supported_resolved. congruence.
    + intros _. by eexists.
Qed.

(** C4 (as amended).  When the platform key is not in the table,
    evaluating the module throws an error whose message is
    "[Audify-JS-Plus] Unsupported platform: <key>. Supported
    platforms: " followed by the supported keys, separated by ", ":
    all eight of them, each once, in the order of the table, and
    nothing else (inside a VS Code extension host the error is a
    second one, whose message ends in "Original error: " and the
    message of the first).  The table has exactly eight entries, and
    these are the eight keys listed. *)
Theorem index_js_unsupported_platform (w : World) :
  platform_key ∉ Obj.keys PLATFORM_MAP →
  ∃ message first w',
    index_js w = (Throw (VErr message), w')
    ∧ first
      = "[Audify-JS-Plus] Unsupported platform: " +:+ platform_key
        +:+ ". Supported platforms: "
        +:+ Str.join ", "
              [ "win32-x64"; "win32-ia32"; "win32-arm64"; "darwin-x64";
                "darwin-arm64"; "linux-x64"; "linux-arm64"; "linux-arm" ]
    ∧ message
      = (if Js.truthy (vscode_pid env)
         then "[Audify-JS-Plus] Failed to initialize in VS Code extension. "
              +:+ "This might be due to missing native binaries or platform incompatibility. "
              +:+ "Original error: " +:+ first
         else first)
    ∧ Str.includes message ("Unsupported platform: " +:+ platform_key)
    ∧ Obj.keys PLATFORM_MAP
      = [ "win32-x64"; "win32-ia32"; "win32-arm64"; "darwin-x64";
          "darwin-arm64"; "linux-x64"; "linux-arm64"; "linux-arm" ]
    ∧ length (Obj.keys PLATFORM_MAP) = 8%nat
    ∧ ∀ k, k ∈ Obj.keys PLATFORM_MAP → Str.includes message k.
Proof.
  intros Hres%supported_not_resolved_None.
  eexists _, _, _. split; [by apply index_js_unsupported|].
  assert (∀ s, Str.includes (unsupported_platform_message platform_key) s →
    Str.includes (if Js.truthy (vscode_pid env)
                  then vscode_message (unsupported_platform_message platform_key)
                  else unsupported_platform_message platform_key) s) as Hwrap.
  { intros s Hs. destruct (Js.truthy (vscode_pid env)); [|done].
    unfold vscode_message. by do 3 apply Str.includes_app_r. }
  split_and!; [reflexivity|reflexivity| |done|done|].
  - apply Hwrap. exists "[Audify-JS-Plus] ". eexists.
    unfold unsupported_platform_message.
    change "[Audify-JS-Plus] Unsupported platform: "
      with ("[Audify-JS-Plus] " +:+ "Unsupported platform: ").
    by rewrite !Str.app_assoc.
  - intros k Hk. apply Hwrap. unfold unsupported_platform_message.
    by do 4 apply Str.includes_app_r; apply Str.includes_join.
Qed.

(** C5 (as amended).  With no other process changing the file system
    during the call, [verifyBinary] returns true if and only if the
    path exists and is readable.  It returns false, and throws nothing,
    both when the path does not exist and when it exists but is not
    readable; the two cases differ in the line written to the console
    only: "Binary not found: " with the path for a missing path,
    "Binary verification failed:" with the message of the file
    system's error, which names the path, for an unreadable one. *)
Theorem verifyBinary_iff (path : string) (w : World) :
  w_sched w = [] →
  ∃ b w',
    verifyBinary path w = (Ret b, w')
    ∧ (b = true ↔ ∃ f, w_fs w !! path = Some f ∧ may_read env f = true)
    ∧ (w_fs w !! path = None →
         b = false
         ∧ w_log w'
           = w_log w ++ [(ERROR, [VStr ("[Audify-JS-Plus] Binary not found: " +:+ path)])])
    ∧ (∀ f, w_fs w !! path = Some f → may_read env f = false →
         b = false
         ∧ w_log w'
           = w_log w ++
             [(ERROR, [VStr "[Audify-JS-Plus] Binary verification failed:";
                       VStr ("EACCES: permission denied, access '" +:+ path +:+ "'")])]).
Proof.
  intros Hq. eexists _, _. split; [by apply verifyBinary_quiet|].
  unfold readable, access_error. destruct (w_fs w !! path) as [f|].
  - split_and!; [|done|].
    + split; [by exists f | by intros (? & [= <-] & ?)].
    + by intros ? [= <-] ->.
  - split_and!; [|done|done]. split; [done | by intros (? & ? & _)].
Qed.

(** Calls go through the wrapper unchanged.  A function [fn] that the
    addon exports under [key] is exported by the loader as
    [withErrorHandling(fn, key)], and calling that wrapper with any
    [this] and any arguments has the outcome of calling [fn] itself:
    the same value and the same world when [fn] returns; the same
    thrown value when [fn] throws, the world differing by one console
    line only. *)
Lemma withErrorHandling_same_outcome (rawAudify : Obj.Props) (key : string)
    (fn : FunRef) (this : JsVal) (args : list JsVal) (w : World) :
  Obj.own rawAudify key = Some (VFun fn) →
  Obj.own (audifyExports rawAudify) key = Some (VFun (withErrorHandling fn key))
  ∧ match call fn this args w with
    | (Ret v, w') => call (withErrorHandling fn key) this args w = (Ret v, w')
    | (Throw error, w') =>
        ∃ w'',
          call (withErrorHandling fn key) this args w = (Throw error, w'')
          ∧ w_fs w'' = w_fs w' ∧ w_sched w'' = w_sched w'
          ∧ w_native w'' = w_native w'
          ∧ w_log w''
            = w_log w' ++
              [(ERROR, [VStr ("[Audify-JS-Plus] Error in " +:+ key +:+ ":"); error])]
    end.
Proof.
  intros Hown. split; [by apply own_audifyExports_function|].
  rewrite call_withErrorHandling.
  destruct (call fn this args w) as [[v|error] w']; [done|].
  by eexists.
Qed.

(** C6 (a defect of the code).  The wrapper does not have the outcome
    of the function it wraps when the export is used with [new], which
    is how the README and the recording test use the addon's exports
    ([new RtAudio()], [new OpusEncoder(...)]).  For a class [id] that
    the addon exports under [key]: where [new] on the class itself
    returns an instance, [new] on the loader's export calls the class
    as a function; a class refuses that with an error, which the
    wrapper logs and throws.  The wrapper turns a success into a
    failure, the addon's constructor is never run. *)
Theorem withErrorHandling_breaks_new (rawAudify : Obj.Props) (key id callee : string)
    (args : list JsVal) (w w1 : World) (instance error : JsVal) :
  Obj.own rawAudify key = Some (VFun (Native id)) →
  native_construct id args w = (Ret instance, w1) →
  (∀ this w0, native_call id this args w0 = (Throw error, w0)) →
  Obj.own (audifyExports rawAudify) key
  = Some (VFun (withErrorHandling (Native id) key))
  ∧ construct callee (Native id) args w = (Ret instance, w1)
  ∧ construct callee (withErrorHandling (Native id) key) args w
    = (Throw error,
       logged w (ERROR, [VStr ("[Audify-JS-Plus] Error in " +:+ key +:+ ":"); error])).
Proof.
  intros Hown Hnew Hcall. split_and!.
  - by apply own_audifyExports_function.
  - exact Hnew.
  - unfold construct, withErrorHandling, bind.
    fold (withErrorHandling (Native id) key).
    rewrite call_withErrorHandling. simpl. by rewrite Hcall.
Qed.

(** C8.  On a supported platform whose artifact exists, is readable
    and loads, evaluating the module yields an exports object whose
    keys include the five constant tables, [getPlatformInfo] and
    [healthCheck], and every key of the loaded addon. *)
Theorem public_surface_keys (w : World) (path : string) (rawAudify : Obj.Props) :
  platform_key ∈ Obj.keys PLATFORM_MAP →
  resolved_path = Some path →
  w_sched w = [] →
  (∃ f, w_fs w !! path = Some f ∧ may_read env f = true) →
  (∀ w1, ∃ w2, require_addon path w1 = (Ret rawAudify, w2)) →
  ∃ exports w',
    index_js w = (Ret exports, w')
    ∧ (∀ k, k ∈ [ "OpusApplication"; "RtAudioApi"; "RtAudioFormat";
                  "RtAudioStreamFlags"; "RtAudioErrorType";
                  "getPlatformInfo"; "healthCheck" ] →
            k ∈ Obj.keys exports)
    ∧ (∀ k, k ∈ Obj.keys rawAudify → k ∈ Obj.keys exports).
Proof.
  intros _ Hres Hq (f & Hf & Hread) Hreq.
  destruct (index_js_loaded w path rawAudify Hres Hq) as [w' Hw']; [|done|].
  { unfold readable. by rewrite Hf. }
  exists (audifyExports rawAudify), w'. split; [done|].
  assert (∀ k, k ∈ Obj.keys rawAudify
               ∨ k ∈ [ "OpusApplication"; "RtAudioApi"; "RtAudioFormat";
                       "RtAudioStreamFlags"; "RtAudioErrorType";
                       "getPlatformInfo"; "version"; "healthCheck" ] →
               k ∈ Obj.keys (audifyExports rawAudify)) as Hkeys.
  { intros k Hk. apply keys_wrap_native_functions.
    unfold audifyExports_literal. rewrite Obj.keys_literal, fmap_app, elem_of_app.
    destruct Hk as [Hk|Hk]; [by left | by right]. }
  split; intros k Hk; apply Hkeys; [right | by left].
  revert k Hk. apply Forall_forall. compute_done.
Qed.

(** C9 (as amended).  On Windows [setBinaryPermissions] changes no
    file and returns true.  Elsewhere, when the file exists: if
    [chmodSync] returns, the permission bits of the file are exactly
    0o755, that is rwxr-xr-x, and the result is true; if [chmodSync]
    throws, whatever the reason, this process changes no file, the line
    "Failed to set permissions:" is logged with the message of the
    error, and the result is false.  With no other process at work,
    [chmodSync] returns when the process owns the file or is the
    superuser and the file system allows the change, and throws
    otherwise (the file of another user, a read-only file system, an
    immutable file). *)
Theorem setBinaryPermissions_effect (path : string) (w : World) :
  (os_platform env = "win32" →
     ∃ w', setBinaryPermissions path w = (Ret true, w') ∧ w_fs w' = w_fs w)
  ∧ (os_platform env ≠ "win32" →
     ∀ w1, existsSync path w = (Ret true, w1) →
       (∀ w2, chmodSync env path (octal [7; 5; 5]) w1 = (Ret (), w2) →
          ∃ w' f',
            setBinaryPermissions path w = (Ret true, w')
            ∧ w_fs w' = w_fs w2
            ∧ w_fs w' !! path = Some f'
            ∧ f_mode f' = octal [7; 5; 5])
       ∧ (∀ error w2, chmodSync env path (octal [7; 5; 5]) w1 = (Throw error, w2) →
          ∃ message w',
            error = VErr message
            ∧ setBinaryPermissions path w = (Ret false, w')
            ∧ w_fs w' = w_fs (after_interfere w1)
            ∧ w_log w'
              = w_log w ++
                [(ERROR, [VStr "[Audify-JS-Plus] Failed to set permissions:";
                          VStr message])]))
  ∧ (os_platform env ≠ "win32" → w_sched w = [] →
     ∀ f, w_fs w !! path = Some f →
       (may_chmod env f = true → f_refusal f = None →
          ∃ w', setBinaryPermissions path w = (Ret true, w')
            ∧ w_fs w'
              = <[path := mkFile (octal [7; 5; 5]) (f_uid f) (f_gid f)]> (w_fs w))
       ∧ (may_chmod env f = false ∨ f_refusal f ≠ None →
          ∃ message w',
            setBinaryPermissions path w = (Ret false, w')
            ∧ w_fs w' = w_fs w
            ∧ w_log w'
              = w_log w ++
                [(ERROR, [VStr "[Audify-JS-Plus] Failed to set permissions:";
                          VStr message])]
            ∧ Str.ends_with message (", chmod '" +:+ path +:+ "'")))
  ∧ Z.testbit (octal [7; 5; 5]) <$> [8; 7; 6; 5; 4; 3; 2; 1; 0]
    = [true; true; true; true; false; true; true; false; true].
Proof.
  split_and!; [| | |done].
  - intros Hwin. eexists. split; [by apply setBinaryPermissions_windows|done].
  - intros Hwin w1 Hfound.
    assert (w_log w1 = w_log w) as Hlog1.
    { rewrite existsSync_eq in Hfound. injection Hfound as _ <-.
      unfold after_interfere. by destruct (w_sched w). }
    unfold setBinaryPermissions. rewrite bool_decide_eq_false_2 by done.
    unfold try_catch, bind. rewrite Hfound. cbv beta iota.
    change (negb true) with false. cbv beta iota.
    split.
    + intros w2 Hch. rewrite Hch. cbv beta iota.
      rewrite chmodSync_eq in Hch.
      destruct (w_fs (after_interfere w1) !! path) as [f|]; [|done].
      destruct (chmod_error env f); [done|]. injection Hch as <-.
      eexists _, _. split_and!; [done|done| |]; simpl.
      * by rewrite lookup_insert_eq.
      * done.
    + intros error w2 Hch. rewrite Hch. cbv beta iota.
      rewrite chmodSync_eq in Hch.
      assert (∃ message, error = VErr message ∧ w2 = after_interfere w1)
        as (message & -> & ->).
      { destruct (w_fs (after_interfere w1) !! path) as [f|].
        - destruct (chmod_error env f); [|done].
          injection Hch as <- <-. by eexists.
        - injection Hch as <- <-. by eexists. }
      exists message. eexists. split_and!; [done|done|done|]. simpl.
      rewrite <- Hlog1. unfold after_interfere. by destruct (w_sched w1).
  - intros Hwin Hq f Hf.
    pose proof (setBinaryPermissions_quiet path w Hwin Hq) as Heq.
    rewrite Hf in Heq. split.
    + intros Hmay Hnone. unfold chmod_error in Heq. rewrite Hnone, Hmay in Heq.
      eexists. split; [done|]. simpl. unfold mkFile. by rewrite Hnone.
    + intros Hbad.
      assert (∃ code, chmod_error env f = Some code) as [code Hcode].
      { unfold chmod_error. destruct (f_refusal f) as [code|]; [by eexists|].
        destruct Hbad as [->|?]; [by eexists|done]. }
      rewrite Hcode in Heq. eexists _, _. split_and!; [done|done|done|].
      by exists code.
Qed.

(** C10.  [verifyBinary] returns a boolean for every path in every
    world and never throws; in particular, when the existence check
    finds the path and the readability check then throws (the file
    is unreadable, or another process has removed it or revoked the
    permission in between), the result is false. *)
Theorem verifyBinary_never_raises (path : string) (w : World) :
  ∃ b w',
    verifyBinary path w = (Ret b, w')
    ∧ (∀ w1 error w2,
         existsSync path w = (Ret true, w1) →
         accessSync_R_OK env path w1 = (Throw error, w2) →
         b = false).
Proof.
  rewrite verifyBinary_eq. simpl.
  destruct (bool_decide (is_Some (w_fs (after_interfere w) !! path))) eqn:Hfound.
  - destruct (access_error (w_fs (after_interfere (after_interfere w))) path)
      as [message|] eqn:Hacc; eexists _, _; (split; [done|]); [done|].
    intros w1 error w2. rewrite existsSync_eq. intros [= _ <-].
    rewrite accessSync_eq, Hacc. by intros [= ].
  - by eexists _, _.
Qed.

End Loader.

Arguments mkWorld {NState} w_fs w_sched w_log w_native.
Arguments w_fs {NState} w.
Arguments w_sched {NState} w.
Arguments w_log {NState} w.
Arguments w_native {NState} w.
Arguments ret {NState A} a w.
Arguments throw {NState A} e w.
Arguments getBinaryPath {NState} env w.
Arguments verifyBinary {NState} env binaryPath w.
Arguments loadNativeModule {NState} require_addon env w.
Arguments healthCheck {NState} env w.
Arguments getPlatformInfo {NState} env w.
Arguments call {NState} native_call env f this args w.
Arguments construct {NState} native_call native_construct env callee f args w.
Arguments index_js {NState} require_addon env w.
Arguments setBinaryPermissions {NState} env binaryPath w.
Arguments existsSync {NState} path w.
Arguments accessSync_R_OK {NState} env path w.
Arguments chmodSync {NState} env path mode w.

(** C7.  The codec AUDIO application mode is 2049; the six sample
    formats SINT8, SINT16, SINT24, SINT32, FLOAT32, FLOAT64 are the
    powers of two 1, 2, 4, 8, 16, 32, pairwise distinct, FLOAT64 being
    32. *)
Theorem constant_tables_exact :
  Obj.own OpusApplication "OPUS_APPLICATION_AUDIO" = Some (VNum 2049)
  ∧ RtAudioFormat
    = [ ("RTAUDIO_FORMAT_SINT8", VNum (2 ^ 0));
        ("RTAUDIO_FORMAT_SINT16", VNum (2 ^ 1));
        ("RTAUDIO_FORMAT_SINT24", VNum (2 ^ 2));
        ("RTAUDIO_FORMAT_SINT32", VNum (2 ^ 3));
        ("RTAUDIO_FORMAT_FLOAT32", VNum (2 ^ 4));
        ("RTAUDIO_FORMAT_FLOAT64", VNum (2 ^ 5)) ]
  ∧ RtAudioFormat.*2 = VNum <$> [1; 2; 4; 8; 16; 32]
  ∧ NoDup (RtAudioFormat.*2)
  ∧ Obj.own RtAudioFormat "RTAUDIO_FORMAT_FLOAT64" = Some (VNum 32).
Proof.
  split_and!; try reflexivity.
  change (RtAudioFormat.*2) with (VNum <$> [1; 2; 4; 8; 16; 32]).
  assert (Inj (=) (=) VNum) by (by intros ?? [= ]).
  apply (NoDup_fmap_2 VNum). compute_done.
Qed.

(** ** Concrete runs *)

Module Run.

(** A Linux machine, an unprivileged user; a Windows machine; a
    FreeBSD machine. *)
Definition linux_x64 : Env :=
  mkEnv "linux" "x64" "/opt/app" VUndef 1000 [1000].

Definition win32_x64 : Env :=
  mkEnv "win32" "x64" "C:\ext\audify" VUndef 1000 [].

Definition freebsd_x64 : Env :=
  mkEnv "freebsd" "x64" "/opt/app" VUndef 1000 [1000].

Definition artifact : string :=
  "/opt/app/prebuilds/linux-x64/build/Release/audify.node".

(** The user's own file, rw-r--r--; a file of the superuser,
    rw-r--r--; a file of the superuser, rw-------. *)
Definition own_file : File := mkFile (octal [6; 4; 4]) 1000 1000.
Definition root_file : File := mkFile (octal [6; 4; 4]) 0 0.
Definition private_file : File := mkFile (octal [6; 0; 0]) 0 0.

(** A world with file system [fs], nobody else at work, an empty
    console; the addon has no state. *)
Definition world (fs : FS) : World unit := mkWorld fs [] [] tt.

(** An addon with one function and one constant; the function returns
    its first argument and throws when it has none. *)
Definition addon : Obj.Props :=
  [ ("echo", VFun (Native "echo")); ("sampleRate", VNum 48000) ].

Definition require_addon (path : string) : M unit Obj.Props := ret addon.

Definition native_call (id : string) (this : JsVal) (args : list JsVal)
  : M unit JsVal :=
  match args with
  | v :: _ => ret v
  | [] => throw (VErr "echo: no argument")
  end.

Example getBinaryPath_linux :
  getBinaryPath linux_x64 (world ∅)
  = (Ret artifact,
     mkWorld ∅ []
       [ (LOG, [VStr "[Audify-JS-Plus] Detecting platform: linux-x64"]);
         (LOG, [VStr ("[Audify-JS-Plus] Binary path: " +:+ artifact)]) ] tt).
Proof. reflexivity. Qed.

Definition installed : FS := {[ artifact := own_file ]}.

Example lookup_installed : installed !! artifact = Some own_file.
Proof. apply lookup_singleton_eq. Qed.

Example resolved_linux : resolved_path linux_x64 = Some artifact.
Proof. reflexivity. Qed.

Example healthCheck_linux_installed :
  fst (healthCheck linux_x64 (world installed))
  = Ret (VObj [ ("status", VStr "healthy");
                ("platform", VStr "linux-x64");
                ("binaryPath", VStr artifact);
                ("binaryExists", VBool true) ]).
Proof. vm_compute. reflexivity. Qed.


(** *** C1 *)


(** On Windows the same segments, joined by backslashes. *)
Example getBinaryPath_win32 :
  fst (getBinaryPath win32_x64 (world ∅))
  = Ret "C:\ext\audify\prebuilds\win32-x64\build\Release\audify.node".
Proof. reflexivity. Qed.

(** *** C2 *)

Lemma healthCheck_never_raises_witness :
  (∃ report w',
     healthCheck linux_x64 (world installed) = (Ret (VObj report), w')
     ∧ Obj.own report "status" = Some (VStr "healthy"))
  ∧ (∃ report w',
       healthCheck linux_x64 (world ∅) = (Ret (VObj report), w')
       ∧ Obj.own report "status" = Some (VStr "unhealthy"))
  ∧ (∃ report w',
       healthCheck linux_x64 (world {[ artifact := private_file ]})
       = (Ret (VObj report), w')
       ∧ Obj.own report "status" = Some (VStr "unhealthy"))
  ∧ (∃ report w',
       healthCheck freebsd_x64 (world installed) = (Ret (VObj report), w')
       ∧ Obj.own report "status" = Some (VStr "error")).
Proof.
  split_and!.
  - destruct (healthCheck_never_raises unit linux_x64 (world installed))
      as (report & w' & Hret & Hsup & _).
    exists report, w'. split; [done|].
    destruct Hsup as (path & [= <-] & Hok & _); [compute_done|done|].
    by apply (Hok own_file).
  - destruct (healthCheck_never_raises unit linux_x64 (world ∅))
      as (report & w' & Hret & Hsup & _).
    exists report, w'. split; [done|].
    destruct Hsup as (path & [= <-] & _ & Habsent & _); [compute_done|done|].
    by apply Habsent.
  - destruct (healthCheck_never_raises unit linux_x64
                (world {[ artifact := private_file ]}))
      as (report & w' & Hret & Hsup & _).
    exists report, w'. split; [done|].
    destruct Hsup as (path & [= <-] & _ & _ & Hdenied); [compute_done|done|].
    apply (Hdenied private_file); [apply lookup_singleton_eq | done].
  - destruct (healthCheck_never_raises unit freebsd_x64 (world installed))
      as (report & w' & Hret & _ & Hunsup).
    exists report, w'. split; [done|].
    apply Hunsup. compute_done.
Defined.

(** *** C3 *)

Lemma healthCheck_report_shape_witness :
  (∃ (b : bool) w',
     healthCheck linux_x64 (world installed)
     = (Ret (VObj [ ("status", VStr (if b then "healthy" else "unhealthy"));
                    ("platform", VStr "linux-x64");
                    ("binaryPath", VStr artifact);
                    ("binaryExists", VBool b) ]), w'))
  ∧ (∃ message w',
       healthCheck freebsd_x64 (world installed)
       = (Ret (VObj [ ("status", VStr "error");
                      ("error", VStr message);
                      ("platform", VStr "freebsd-x64") ]), w')).
Proof.
  split.
  - destruct (healthCheck_report_shape unit linux_x64 (world installed))
      as (report & w' & Hret & Hsup & _).
    destruct Hsup as (path & b & [= <-] & _ & ->); [compute_done|].
    by exists b, w'.
  - destruct (healthCheck_report_shape unit freebsd_x64 (world installed))
      as (report & w' & Hret & _ & Hunsup).
    destruct Hunsup as (message & ->); [compute_done|].
    by exists message, w'.
Defined.

(** The healthy report has no field named artifactPath or
    artifactExists (the fields are binaryPath and binaryExists), and the
    report for an unsupported platform has no path and no existence
    field under either name. *)
Lemma healthCheck_has_no_artifact_fields :
  (∃ report,
     fst (healthCheck linux_x64 (world installed)) = Ret (VObj report)
     ∧ Obj.own report "status" = Some (VStr "healthy")
     ∧ Obj.own report "artifactPath" = None
     ∧ Obj.own report "artifactExists" = None
     ∧ Obj.own report "binaryPath" = Some (VStr artifact)
     ∧ Obj.own report "binaryExists" = Some (VBool true))
  ∧ (∃ report,
       fst (healthCheck freebsd_x64 (world installed)) = Ret (VObj report)
       ∧ Obj.keys report = ["status"; "error"; "platform"]).
Proof.
  split; eexists; (split; [vm_compute; reflexivity|]); repeat split.
Qed.


(** *** C4 *)

Lemma index_js_unsupported_platform_witness :
  ∃ message w',
    index_js require_addon freebsd_x64 (world installed) = (Throw (VErr message), w')
    ∧ message
      = "[Audify-JS-Plus] Unsupported platform: freebsd-x64. Supported platforms: win32-x64, win32-ia32, win32-arm64, darwin-x64, darwin-arm64, linux-x64, linux-arm64, linux-arm"
    ∧ Str.includes message "Unsupported platform: freebsd-x64"
    ∧ length (Obj.keys PLATFORM_MAP) = 8%nat
    ∧ Forall (Str.includes message) (Obj.keys PLATFORM_MAP).
Proof.
  destruct (index_js_unsupported_platform unit require_addon freebsd_x64
              (world installed))
    as (message & first & w' & Hthrow & -> & -> & Hkey & _ & Hlen & Hall);
    [compute_done|].
  eexists _, w'. split_and!; [exact Hthrow|reflexivity|exact Hkey|exact Hlen|].
  by apply Forall_forall.
Defined.

(** On FreeBSD/x64 the initialisation error lists eight supported
    keys: the table has eight entries, not nine. *)
Lemma platform_table_has_eight_entries :
  fst (index_js require_addon freebsd_x64 (world installed))
  = Throw (VErr "[Audify-JS-Plus] Unsupported platform: freebsd-x64. Supported platforms: win32-x64, win32-ia32, win32-arm64, darwin-x64, darwin-arm64, linux-x64, linux-arm64, linux-arm")
  ∧ length (Obj.keys PLATFORM_MAP) = 8%nat
  ∧ length (Obj.keys PLATFORM_MAP) ≠ 9%nat.
Proof. split_and!; [vm_compute; reflexivity | reflexivity | discriminate]. Qed.

(** *** C5 *)

Lemma verifyBinary_iff_witness :
  (∃ w', verifyBinary linux_x64 artifact (world installed) = (Ret true, w'))
  ∧ (∃ w', verifyBinary linux_x64 artifact (world ∅) = (Ret false, w')
           ∧ w_log w'
             = [(ERROR, [VStr ("[Audify-JS-Plus] Binary not found: " +:+ artifact)])])
  ∧ (∃ w', verifyBinary linux_x64 artifact (world {[ artifact := private_file ]})
           = (Ret false, w')
           ∧ w_log w'
             = [(ERROR, [VStr "[Audify-JS-Plus] Binary verification failed:";
                         VStr ("EACCES: permission denied, access '"
                               +:+ artifact +:+ "'")])]).
Proof.
  split_and!.
  - destruct (verifyBinary_iff unit linux_x64 artifact (world installed) eq_refl)
      as (b & w' & Hret & Hiff & _).
    exists w'. rewrite Hret. f_equal. f_equal. apply Hiff.
    exists own_file. by split; [apply lookup_singleton_eq|].
  - destruct (verifyBinary_iff unit linux_x64 artifact (world ∅) eq_refl)
      as (b & w' & Hret & _ & Habsent & _).
    exists w'. destruct Habsent as [-> Hlog]; [done|]. by split.
  - destruct (verifyBinary_iff unit linux_x64 artifact
                (world {[ artifact := private_file ]}) eq_refl)
      as (b & w' & Hret & _ & _ & Hdenied).
    exists w'.
    destruct (Hdenied private_file) as [-> Hlog];
      [apply lookup_singleton_eq | done | by split].
Defined.

(** A missing artifact and an unreadable one give the same result:
    [verifyBinary] returns false in both cases, and [loadNativeModule]
    throws the same error for both.  No error kind tells them apart. *)
Lemma verifyBinary_failures_not_distinct :
  fst (verifyBinary linux_x64 artifact (world ∅)) = Ret false
  ∧ fst (verifyBinary linux_x64 artifact (world {[ artifact := private_file ]}))
    = Ret false
  ∧ fst (loadNativeModule require_addon linux_x64 (world ∅))
    = Throw (VErr ("[Audify-JS-Plus] Cannot load binary: " +:+ artifact
                   +:+ ". Please ensure the binary exists and is accessible."))
  ∧ fst (loadNativeModule require_addon linux_x64
           (world {[ artifact := private_file ]}))
    = fst (loadNativeModule require_addon linux_x64 (world ∅)).
Proof. split_and!; vm_compute; reflexivity. Qed.

(** *** C6 *)

Example withErrorHandling_forwards_calls :
  Obj.own (audifyExports addon) "echo"
  = Some (VFun (withErrorHandling (Native "echo") "echo"))
  ∧ call native_call linux_x64 (withErrorHandling (Native "echo") "echo")
      VUndef [VNum 7] (world ∅)
    = (Ret (VNum 7), world ∅)
  ∧ fst (call native_call linux_x64 (withErrorHandling (Native "echo") "echo")
           VUndef [] (world ∅))
    = Throw (VErr "echo: no argument").
Proof. split_and!; reflexivity. Qed.

(** The addon as the README shows it: its exports are classes.  A
    class returns an instance under [new] and refuses a plain call. *)
Definition audio_addon : Obj.Props :=
  [ ("RtAudio", VFun (Native "RtAudio"));
    ("OpusEncoder", VFun (Native "OpusEncoder"));
    ("OpusDecoder", VFun (Native "OpusDecoder")) ].

Definition class_call (id : string) (this : JsVal) (args : list JsVal)
  : M unit JsVal :=
  throw (VErr "Class constructors cannot be invoked without 'new'").

Definition class_construct (id : string) (args : list JsVal) : M unit JsVal :=
  ret (VObj []).

(** [new RtAudio()] on the addon's own export and on the loader's. *)
Lemma withErrorHandling_breaks_new_witness :
  Obj.own (audifyExports audio_addon) "RtAudio"
  = Some (VFun (withErrorHandling (Native "RtAudio") "RtAudio"))
  ∧ construct class_call class_construct linux_x64 "RtAudio"
      (Native "RtAudio") [] (world ∅)
    = (Ret (VObj []), world ∅)
  ∧ construct class_call class_construct linux_x64 "RtAudio"
      (withErrorHandling (Native "RtAudio") "RtAudio") [] (world ∅)
    = (Throw (VErr "Class constructors cannot be invoked without 'new'"),
       mkWorld ∅ []
         [(ERROR, [VStr "[Audify-JS-Plus] Error in RtAudio:";
                   VErr "Class constructors cannot be invoked without 'new'"])] tt).
Proof.
  apply (withErrorHandling_breaks_new unit class_call class_construct linux_x64
           audio_addon "RtAudio" "RtAudio" "RtAudio" [] (world ∅) (world ∅)
           (VObj []) (VErr "Class constructors cannot be invoked without 'new'")).
  - reflexivity.
  - reflexivity.
  - intros this w0. reflexivity.
Defined.

(** *** C8 *)

Lemma public_surface_keys_witness :
  ∃ exports w',
    index_js require_addon linux_x64 (world installed) = (Ret exports, w')
    ∧ Forall (λ k, k ∈ Obj.keys exports)
        [ "OpusApplication"; "RtAudioApi"; "RtAudioFormat"; "RtAudioStreamFlags";
          "RtAudioErrorType"; "getPlatformInfo"; "healthCheck";
          "echo"; "sampleRate" ].
Proof.
  destruct (public_surface_keys unit require_addon linux_x64 (world installed)
              artifact addon)
    as (exports & w' & Hret & Hconst & Hraw).
  - compute_done.
  - reflexivity.
  - reflexivity.
  - exists own_file. by split; [apply lookup_singleton_eq|].
  - intros w1. by exists w1.
  - exists exports, w'. split; [done|].
    repeat (apply Forall_cons_2;
            [first [apply Hconst; compute_done | apply Hraw; compute_done]|]).
    apply Forall_nil_2.
Defined.

Example index_js_linux_keys :
  match fst (index_js require_addon linux_x64 (world installed)) with
  | Ret exports => Obj.keys exports
  | Throw _ => []
  end
  = [ "echo"; "sampleRate"; "OpusApplication"; "RtAudioApi"; "RtAudioFormat";
      "RtAudioStreamFlags"; "RtAudioErrorType"; "getPlatformInfo"; "version";
      "healthCheck" ].
Proof. vm_compute. reflexivity. Qed.


(** *** C9 *)

(** The user's own file on a file system mounted read-only. *)
Definition read_only_file : File :=
  mkFileOn (octal [6; 4; 4]) 1000 1000 (Some "EROFS: read-only file system").

Lemma setBinaryPermissions_effect_witness :
  (∃ w',
     setBinaryPermissions linux_x64 artifact (world installed) = (Ret true, w')
     ∧ w_fs w' !! artifact = Some (mkFile (octal [7; 5; 5]) 1000 1000))
  ∧ (∃ w',
       setBinaryPermissions linux_x64 artifact (world {[ artifact := root_file ]})
       = (Ret false, w')
       ∧ w_fs w' !! artifact = Some root_file)
  ∧ (∃ w',
       setBinaryPermissions linux_x64 artifact (world {[ artifact := read_only_file ]})
       = (Ret false, w')
       ∧ w_fs w' !! artifact = Some read_only_file
       ∧ w_log w'
         = [(ERROR, [VStr "[Audify-JS-Plus] Failed to set permissions:";
                     VStr ("EROFS: read-only file system, chmod '" +:+ artifact +:+ "'")])])
  ∧ (∃ w',
       setBinaryPermissions win32_x64 "C:\ext\audify\audify.node" (world ∅)
       = (Ret true, w')
       ∧ w_fs w' = ∅).
Proof.
  destruct (setBinaryPermissions_effect unit linux_x64 artifact (world installed))
    as (_ & _ & Howner & _).
  destruct (setBinaryPermissions_effect unit linux_x64 artifact
              (world {[ artifact := root_file ]})) as (_ & _ & Hother & _).
  destruct (setBinaryPermissions_effect unit linux_x64 artifact
              (world {[ artifact := read_only_file ]})) as (_ & Hthrows & _ & _).
  destruct (setBinaryPermissions_effect unit win32_x64 "C:\ext\audify\audify.node"
              (world ∅)) as (Hwin & _).
  split_and!.
  - destruct (Howner ltac:(discriminate) eq_refl own_file lookup_installed)
      as [Hown _].
    destruct (Hown eq_refl eq_refl) as (w' & Hret & Hfs).
    exists w'. split; [done|]. rewrite Hfs. apply lookup_insert_eq.
  - destruct (Hother ltac:(discriminate) eq_refl root_file
                (lookup_singleton_eq artifact root_file)) as [_ Hdenied].
    destruct (Hdenied (or_introl eq_refl)) as (message & w' & Hret & Hfs & _).
    exists w'. split; [done|]. rewrite Hfs. apply lookup_singleton_eq.
  - assert (({[ artifact := read_only_file ]} : FS) !! artifact = Some read_only_file)
      as Hf by apply lookup_singleton_eq.
    destruct (Hthrows ltac:(discriminate) (world {[ artifact := read_only_file ]}))
      as [_ Hthrow].
    { rewrite existsSync_eq. simpl.
      by rewrite bool_decide_eq_true_2 by (rewrite Hf; by eexists). }
    destruct (Hthrow
                (VErr ("EROFS: read-only file system, chmod '" +:+ artifact +:+ "'"))
                (world {[ artifact := read_only_file ]}))
      as (message & w' & Hmsg & Hret & Hfs & Hlog).
    { rewrite chmodSync_eq. simpl. by rewrite Hf. }
    injection Hmsg as <-.
    exists w'. split_and!; [done| |done]. by rewrite Hfs.
  - by apply Hwin.
Defined.

(** On Linux, a file of the superuser and a process of another user:
    the file exists, [chmodSync] throws EPERM, the result is false and
    the mode stays 0o644. *)
Lemma setBinaryPermissions_not_owner :
  os_platform linux_x64 ≠ "win32"
  ∧ ({[ artifact := root_file ]} : FS) !! artifact = Some root_file
  ∧ fst (setBinaryPermissions linux_x64 artifact (world {[ artifact := root_file ]}))
    = Ret false
  ∧ w_fs (snd (setBinaryPermissions linux_x64 artifact
                 (world {[ artifact := root_file ]}))) !! artifact
    = Some (mkFile (octal [6; 4; 4]) 0 0)
  ∧ w_log (snd (setBinaryPermissions linux_x64 artifact
                  (world {[ artifact := root_file ]})))
    = [(ERROR, [VStr "[Audify-JS-Plus] Failed to set permissions:";
                VStr ("EPERM: operation not permitted, chmod '" +:+ artifact +:+ "'")])].
Proof.
  split_and!; [discriminate | apply lookup_singleton_eq | vm_compute; reflexivity..].
Qed.

(** *** C10 *)

(** The artifact is installed and readable when [verifyBinary] checks
    that it exists; before the readability check another process
    makes it private to the superuser. *)
Definition revoked_mid_check : World unit :=
  mkWorld installed [λ fs, fs; λ fs, <[artifact := private_file]> fs] [] tt.

Lemma verifyBinary_never_raises_witness :
  ∃ w', verifyBinary linux_x64 artifact revoked_mid_check = (Ret false, w').
Proof.
  destruct (verifyBinary_never_raises unit linux_x64 artifact revoked_mid_check)
    as (b & w' & Hret & Hfalse).
  exists w'. rewrite Hret. do 2 f_equal.
  apply (Hfalse (after_interfere unit revoked_mid_check)
           (VErr ("EACCES: permission denied, access '" +:+ artifact +:+ "'"))
           (after_interfere unit (after_interfere unit revoked_mid_check))).
  - rewrite existsSync_eq.
    by rewrite bool_decide_eq_true_2 by (exists own_file; apply lookup_installed).
  - rewrite accessSync_eq. unfold access_error.
    change (w_fs (after_interfere unit (after_interfere unit revoked_mid_check)))
      with (<[artifact := private_file]> installed).
    by rewrite lookup_insert_eq.
Defined.

Example verifyBinary_revoked_log :
  w_log (snd (verifyBinary linux_x64 artifact revoked_mid_check))
  = [(ERROR, [VStr "[Audify-JS-Plus] Binary verification failed:";
              VStr ("EACCES: permission denied, access '" +:+ artifact +:+ "'")])].
Proof. vm_compute. reflexivity. Qed.

End Run.

(** * Beyond the loader's contract: the rest of the code *)

Arguments bind {NState A B} m k w.
Arguments try_catch {NState A} body handler w.
Arguments console_log {NState} args w.
Arguments console_warn {NState} args w.
Arguments console_error {NState} args w.
Arguments js_get {NState} v k w.
Arguments path_join {NState} env args w.
Arguments logged {NState} w line.
Arguments after_interfere {NState} w.
Arguments load_rawAudify {NState} require_addon env w.

(** ** index.js: how loading fails *)

Section LoadFailures.

Variable NState : Type.
Variable require_addon : string → M NState Obj.Props.
Variable env : Env.

Local Abbreviation World := (World NState).

(** X1.  On a supported platform whose artifact is missing or not
    readable, [loadNativeModule] throws the one error
    "Cannot load binary: <path>. Please ensure the binary exists and
    is accessible."; it does so without calling [require] (the outcome
    is the same whatever [require] would do) and leaves the file
    system and the addon's state as they were. *)
Theorem loadNativeModule_cannot_load (path : string) (w : World) :
  resolved_path env = Some path →
  w_sched w = [] →
  (w_fs w !! path = None
   ∨ ∃ f, w_fs w !! path = Some f ∧ may_read env f = false) →
  ∃ w',
    loadNativeModule require_addon env w
    = (Throw (VErr ("[Audify-JS-Plus] Cannot load binary: " +:+ path
                    +:+ ". Please ensure the binary exists and is accessible.")), w')
    ∧ (∀ other_require : string → M NState Obj.Props,
         loadNativeModule other_require env w
         = loadNativeModule require_addon env w)
    ∧ w_fs w' = w_fs w
    ∧ w_native w' = w_native w.
Proof using Type.
  intros Hres Hq Hbad.
  assert (readable env (w_fs w) path = false) as Hread.
  { unfold readable. by destruct Hbad as [->|(f & -> & ->)]. }
  assert (∀ r : string → M NState Obj.Props,
            loadNativeModule r env w
            = (Throw (VErr (cannot_load_message path)),
               snd (verifyBinary env path
                      (logged (logged w (detect_line (platform_key env)))
                              (path_line path))))) as Hany.
  { intros r. apply loadNativeModule_unverified; [done|].
    rewrite verifyBinary_quiet by done. simpl. by rewrite Hread. }
  eexists. split_and!; [apply Hany| |..].
  - intros r. by rewrite !Hany.
  - by rewrite verifyBinary_quiet.
  - by rewrite verifyBinary_quiet.
Qed.

(** X2.  On a supported platform whose artifact is present and
    readable, when [require] throws an error with message [m],
    [loadNativeModule] throws an error whose message is
    "Failed to load native module from <path>: " followed by [m]: the
    loader's own text is kept.  When [require] throws [undefined], the
    catch block itself fails, reading [error.message]. *)
Theorem loadNativeModule_load_failure (path : string) (w : World) (e : JsVal) :
  resolved_path env = Some path →
  w_sched w = [] →
  (∃ f, w_fs w !! path = Some f ∧ may_read env f = true) →
  (∀ w1, ∃ w2, require_addon path w1 = (Throw e, w2)) →
  ∃ w',
    loadNativeModule require_addon env w
    = (Throw
         (match e with
          | VErr m =>
              VErr ("[Audify-JS-Plus] Failed to load native module from "
                    +:+ path +:+ ": " +:+ m)
          | VUndef =>
              VErr "Cannot read properties of undefined (reading 'message')"
          | VObj props =>
              VErr ("[Audify-JS-Plus] Failed to load native module from "
                    +:+ path +:+ ": " +:+ Js.to_string (Obj.get props "message"))
          | _ =>
              VErr ("[Audify-JS-Plus] Failed to load native module from "
                    +:+ path +:+ ": undefined")
          end), w').
Proof using Type.
  intros Hres Hq (f & Hf & Hread) Hreq.
  unfold loadNativeModule, try_catch, bind.
  rewrite (getBinaryPath_supported NState env w path Hres).
  rewrite verifyBinary_quiet by done. simpl.
  unfold readable. simpl. rewrite Hf, Hread. simpl.
  match goal with |- context [require_addon path ?w1] =>
    destruct (Hreq w1) as [w2 ->] end.
  simpl. destruct e; simpl; by eexists.
Qed.

(** Whatever [loadNativeModule] throws is an [Error] object. *)
Lemma loadNativeModule_throws_Error (w w' : World) (e : JsVal) :
  loadNativeModule require_addon env w = (Throw e, w') → ∃ m, e = VErr m.
Proof using Type.
  unfold loadNativeModule, try_catch, bind.
  destruct (resolved_path env) as [path|] eqn:Hres.
  - rewrite (getBinaryPath_supported NState env w path Hres).
    destruct (verifyBinary_total NState env path
      (logged (logged w (detect_line (platform_key env))) (path_line path)))
      as (b & w1 & ->).
    destruct b; simpl; [|intros [= <- _]; by eexists].
    unfold console_log, console. simpl.
    match goal with |- context [require_addon path ?w0] =>
      destruct (require_addon path w0) as [[raw|e0] w2] end; simpl; [done|].
    destruct e0; simpl; intros [= <- _]; by eexists.
  - rewrite (getBinaryPath_unsupported NState env w Hres).
    intros [= <- _]. by eexists.
Qed.

(** Whatever evaluating the module throws is an [Error] object. *)
Lemma index_js_throws_Error (w w' : World) (e : JsVal) :
  index_js require_addon env w = (Throw e, w') → ∃ m, e = VErr m.
Proof using Type.
  unfold index_js, load_rawAudify, try_catch, bind.
  destruct (loadNativeModule require_addon env w) as [[raw|e0] w1] eqn:Hload;
    simpl; [done|].
  destruct (loadNativeModule_throws_Error _ _ _ Hload) as [m ->].
  simpl. destruct (Js.truthy (vscode_pid env)); simpl;
    intros [= <- _]; by eexists.
Qed.

(** X3.  Evaluating the module throws [Error] objects only.  Outside
    a VS Code extension host the error of [loadNativeModule] is thrown
    again unchanged; inside one, a new error is thrown whose message is
    the VS Code notice followed by "Original error: " and the message
    of the first. *)
Theorem index_js_throws (w w' : World) (e : JsVal) :
  index_js require_addon env w = (Throw e, w') →
  ∃ m w1,
    loadNativeModule require_addon env w = (Throw (VErr m), w1)
    ∧ e = VErr
          (if Js.truthy (vscode_pid env)
           then "[Audify-JS-Plus] Failed to initialize in VS Code extension. "
                +:+ "This might be due to missing native binaries or platform incompatibility. "
                +:+ "Original error: " +:+ m
           else m)
    ∧ w_log w' = w_log w1 ++ [(ERROR, [VStr "[Audify-JS-Plus] Initialization failed:"; VStr m])]
    ∧ w_fs w' = w_fs w1.
Proof using Type.
  unfold index_js, load_rawAudify, try_catch, bind.
  destruct (loadNativeModule require_addon env w) as [[raw|e0] w1] eqn:Hload;
    simpl; [done|].
  destruct (loadNativeModule_throws_Error _ _ _ Hload) as [m ->].
  simpl. intros Hthrow. exists m, w1. split; [done|].
  destruct (Js.truthy (vscode_pid env)); simpl in Hthrow;
    injection Hthrow as <- <-; by split_and!.
Qed.

End LoadFailures.

(** ** index.js: the two utility queries *)

Section Queries.

Variable NState : Type.
Variable env : Env.

Local Abbreviation World := (World NState).

(** X4.  [getPlatformInfo] and [healthCheck] agree.  On a supported
    platform [getPlatformInfo] returns {platform, arch, key,
    binaryPath} with key = platform-arch, and the health report names
    the same key and the same path.  On an unsupported platform
    [getPlatformInfo] throws, and the thrown message is the one the
    health report carries in its error field. *)
Theorem getPlatformInfo_agrees_with_healthCheck (w : World) :
  (platform_key env ∈ Obj.keys PLATFORM_MAP →
     ∃ path w1 report w2,
       getPlatformInfo env w
       = (Ret (VObj [ ("platform", VStr (os_platform env));
                      ("arch", VStr (os_arch env));
                      ("key", VStr (os_platform env +:+ "-" +:+ os_arch env));
                      ("binaryPath", VStr path) ]), w1)
       ∧ healthCheck env w = (Ret (VObj report), w2)
       ∧ Obj.own report "platform"
         = Some (VStr (os_platform env +:+ "-" +:+ os_arch env))
       ∧ Obj.own report "binaryPath" = Some (VStr path))
  ∧ (platform_key env ∉ Obj.keys PLATFORM_MAP →
     ∃ m w1 report w2,
       getPlatformInfo env w = (Throw (VErr m), w1)
       ∧ healthCheck env w = (Ret (VObj report), w2)
       ∧ Obj.own report "error" = Some (VStr m)).
Proof using Type.
  split.
  - intros [path Hres]%supported_resolved.
    destruct (healthCheck_supported NState env w path Hres) as (b & w2 & _ & Hh).
    exists path. eexists. exists (health_report env b path), w2.
    split_and!; [|done|done|done].
    unfold getPlatformInfo, bind.
    by rewrite (getBinaryPath_supported NState env w path Hres).
  - intros Hres%supported_not_resolved_None.
    eexists _, _, _, _. split_and!.
    + unfold getPlatformInfo, bind.
      by rewrite (getBinaryPath_unsupported NState env w Hres).
    + by apply healthCheck_unsupported.
    + done.
Qed.

(** X5.  With no other process at work, [healthCheck] only writes to
    the console: the file system and the addon's state are as before,
    and a second call returns the same report. *)
Theorem healthCheck_read_only (w : World) :
  w_sched w = [] →
  ∃ report w' lines,
    healthCheck env w = (Ret report, w')
    ∧ w_fs w' = w_fs w
    ∧ w_sched w' = []
    ∧ w_native w' = w_native w
    ∧ w_log w' = w_log w ++ lines
    ∧ fst (healthCheck env w') = Ret report.
Proof using Type.
  intros Hq. destruct (resolved_path env) as [path|] eqn:Hres.
  - assert (∀ w0 : World, w_sched w0 = [] →
              healthCheck env w0
              = (Ret (VObj (health_report env (readable env (w_fs w0) path) path)),
                 snd (verifyBinary env path
                        (logged (logged w0 (detect_line (platform_key env)))
                                (path_line path))))) as Hrun.
    { intros w0 Hq0.
      destruct (healthCheck_supported NState env w0 path Hres) as (b & w' & Hv & ->).
      rewrite Hv. rewrite verifyBinary_quiet in Hv by done.
      by injection Hv as <- _. }
    rewrite (Hrun w Hq). rewrite verifyBinary_quiet by done. simpl.
    eexists _, _, [_; _; _]. split_and!; [done|done|done|done| |].
    + unfold logged. simpl. by rewrite <- !app_assoc.
    + by rewrite Hrun.
  - rewrite !(healthCheck_unsupported NState env _ Hres).
    eexists _, _, [_]. split_and!; try done.
    by rewrite (healthCheck_unsupported NState env _ Hres).
Qed.

End Queries.

(** ** index.js: what the exports object holds *)

(** The properties the loader itself puts in [audifyExports], after
    the spread of the addon. *)
Definition loader_entries : Obj.Props :=
  [ ("OpusApplication", VObj OpusApplication);
    ("RtAudioApi", VObj RtAudioApi);
    ("RtAudioFormat", VObj RtAudioFormat);
    ("RtAudioStreamFlags", VObj RtAudioStreamFlags);
    ("RtAudioErrorType", VObj RtAudioErrorType);
    ("getPlatformInfo", VFun GetPlatformInfo);
    ("version", VStr "2.0.1");
    ("healthCheck", VFun HealthCheck) ].

Lemma audifyExports_literal_eq (rawAudify : Obj.Props) :
  audifyExports_literal rawAudify = Obj.literal (rawAudify ++ loader_entries).
Proof. reflexivity. Qed.

Lemma own_app (l1 l2 : Obj.Props) (k : string) :
  Obj.own (l1 ++ l2) k
  = match Obj.own l1 k with Some v => Some v | None => Obj.own l2 k end.
Proof.
  induction l1 as [|[k1 v1] l1 IH]; simpl; [done|].
  by destruct (decide (k1 = k)).
Qed.

Lemma own_fold_set (kvs : list (string * JsVal)) (o : Obj.Props) (k : string) :
  Obj.own (fold_left (λ o kv, Obj.set o kv.1 kv.2) kvs o) k
  = match Obj.own (reverse kvs) k with Some v => Some v | None => Obj.own o k end.
Proof.
  revert o. induction kvs as [|[k0 v0] kvs IH]; intros o; simpl; [done|].
  rewrite IH, reverse_cons, own_app, Obj.own_set. simpl.
  destruct (Obj.own (reverse kvs) k); [done|].
  by destruct (decide (k0 = k)).
Qed.

Lemma own_elem_of (l : Obj.Props) (k : string) (v : JsVal) :
  NoDup (Obj.keys l) → Obj.own l k = Some v ↔ (k, v) ∈ l.
Proof.
  unfold Obj.keys. induction l as [|[k1 v1] l IH]; simpl.
  - intros _. split; [done | by intros ?%elem_of_nil].
  - intros [Hk1 Hnd]%NoDup_cons. rewrite elem_of_cons.
    destruct (decide (k1 = k)) as [->|Hne].
    + split; [intros [= ->]; by left|].
      intros [[= ->]|Hin]; [done|].
      destruct Hk1. apply list_elem_of_fmap. by exists (k, v).
    + rewrite (IH Hnd). split; [by right|]. by intros [[= -> ->]|?].
Qed.

Lemma own_reverse (l : Obj.Props) (k : string) :
  NoDup (Obj.keys l) → Obj.own (reverse l) k = Obj.own l k.
Proof.
  intros Hnd.
  assert (NoDup (Obj.keys (reverse l))) as Hnd'.
  { unfold Obj.keys in *. by rewrite fmap_reverse, reverse_Permutation. }
  destruct (Obj.own l k) as [v|] eqn:E.
  - apply own_elem_of; [done|]. apply own_elem_of in E; [|done].
    by apply elem_of_reverse.
  - apply Obj.own_None. apply Obj.own_None in E.
    unfold Obj.keys in *. by rewrite fmap_reverse, elem_of_reverse.
Qed.

Lemma keys_set_in (o : Obj.Props) (k : string) (v : JsVal) :
  k ∈ Obj.keys o → Obj.keys (Obj.set o k v) = Obj.keys o.
Proof.
  unfold Obj.keys. induction o as [|[k0 v0] o IH]; simpl.
  - by intros ?%elem_of_nil.
  - intros Hin. destruct (decide (k0 = k)) as [->|Hne]; simpl; [done|].
    apply elem_of_cons in Hin as [->|Hin]; [done|]. f_equal. by apply IH.
Qed.

Lemma keys_set_notin (o : Obj.Props) (k : string) (v : JsVal) :
  k ∉ Obj.keys o → Obj.keys (Obj.set o k v) = Obj.keys o ++ [k].
Proof.
  unfold Obj.keys. induction o as [|[k0 v0] o IH]; simpl; [done|].
  intros [Hne Hnin]%not_elem_of_cons.
  rewrite decide_False by done. simpl. f_equal. by apply IH.
Qed.

Lemma keys_set_eq (o : Obj.Props) (k : string) (v : JsVal) :
  Obj.keys (Obj.set o k v)
  = if decide (k ∈ Obj.keys o) then Obj.keys o else Obj.keys o ++ [k].
Proof.
  case_decide; [by apply keys_set_in | by apply keys_set_notin].
Qed.

Lemma filter_ext_elem_of {A : Type} (P1 P2 : A → Prop)
    `{!∀ x, Decision (P1 x), !∀ x, Decision (P2 x)} (l : list A) :
  (∀ x, x ∈ l → P1 x ↔ P2 x) → filter P1 l = filter P2 l.
Proof.
  induction l as [|a l IH]; [done|]. intros Hiff.
  assert (filter P1 l = filter P2 l) as Hl.
  { apply IH. intros x Hx. apply Hiff, elem_of_cons. by right. }
  assert (P1 a ↔ P2 a) as Ha12 by (apply Hiff, elem_of_cons; by left).
  destruct (decide (P1 a)) as [Ha|Ha].
  - rewrite !filter_cons_True; [by rewrite Hl|by apply Ha12|done].
  - rewrite !filter_cons_False; [done|by rewrite <- Ha12|done].
Qed.

Lemma keys_fold_set_order (kvs : list (string * JsVal)) (o : Obj.Props) :
  NoDup kvs.*1 →
  Obj.keys (fold_left (λ o kv, Obj.set o kv.1 kv.2) kvs o)
  = Obj.keys o ++ filter (λ k, k ∉ Obj.keys o) kvs.*1.
Proof.
  revert o. induction kvs as [|[k0 v0] kvs IH]; intros o; simpl.
  - intros _. by rewrite app_nil_r.
  - intros [Hk0 Hnd]%NoDup_cons. rewrite (IH _ Hnd), keys_set_eq. simpl.
    destruct (decide (k0 ∈ Obj.keys o)) as [Hin|Hnin].
    + by rewrite filter_cons_False by (by intros ?).
    + rewrite filter_cons_True by done. rewrite <- app_assoc. simpl.
      do 2 f_equal. apply filter_ext_elem_of. intros k Hk.
      cbv beta. rewrite elem_of_app, list_elem_of_singleton.
      split; [by intros Hn ?; apply Hn; left | by intros ? [?| ->]].
Qed.

Lemma filter_all {A : Type} (P : A → Prop) `{!∀ x, Decision (P x)} (l : list A) :
  (∀ x, P x) → filter P l = l.
Proof.
  intros HP. induction l as [|x l IH]; [done|].
  by rewrite filter_cons_True, IH.
Qed.

Lemma keys_wrap_fold (rawAudify : Obj.Props) (ks : list string) (exports : Obj.Props) :
  (∀ k, k ∈ ks → k ∈ Obj.keys exports) →
  Obj.keys (fold_left (wrap_step rawAudify) ks exports) = Obj.keys exports.
Proof.
  revert exports. induction ks as [|key ks IH]; intros exports Hks; simpl; [done|].
  assert (Obj.keys (wrap_step rawAudify exports key) = Obj.keys exports) as Hstep.
  { unfold wrap_step. destruct (Obj.get rawAudify key); try done.
    apply keys_set_in, Hks, elem_of_cons. by left. }
  rewrite IH; [done|]. intros k Hk. rewrite Hstep.
  apply Hks, elem_of_cons. by right.
Qed.

(** X6.  [Object.keys] of the exports: first the keys of the addon, in
    the addon's order, then those of OpusApplication, RtAudioApi,
    RtAudioFormat, RtAudioStreamFlags, RtAudioErrorType,
    getPlatformInfo, version, healthCheck that the addon does not have;
    nothing else. *)
Theorem audifyExports_keys (rawAudify : Obj.Props) :
  NoDup (Obj.keys rawAudify) →
  Obj.keys (audifyExports rawAudify)
  = Obj.keys rawAudify
    ++ filter (λ k, k ∉ Obj.keys rawAudify)
         [ "OpusApplication"; "RtAudioApi"; "RtAudioFormat"; "RtAudioStreamFlags";
           "RtAudioErrorType"; "getPlatformInfo"; "version"; "healthCheck" ].
Proof.
  intros Hnd.
  assert (Obj.keys (audifyExports_literal rawAudify)
          = Obj.keys rawAudify
            ++ filter (λ k, k ∉ Obj.keys rawAudify) (Obj.keys loader_entries)) as Hlit.
  { rewrite audifyExports_literal_eq. unfold Obj.literal.
    rewrite fold_left_app.
    rewrite (keys_fold_set_order loader_entries) by compute_done.
    rewrite (keys_fold_set_order rawAudify []) by done.
    change (Obj.keys []) with (@nil string).
    by rewrite app_nil_l, filter_all by (intros k; apply not_elem_of_nil). }
  unfold audifyExports, wrap_native_functions.
  change (λ exports key, _) with (wrap_step rawAudify).
  rewrite keys_wrap_fold; [exact Hlit|].
  intros k Hk. rewrite Hlit, elem_of_app. by left.
Qed.

(** X7.  What the exports hold under each key, for an addon object
    (its keys are distinct).  A function of the addon is exported
    wrapped, also under a name the loader uses itself: an addon
    function called healthCheck replaces the loader's.  Any other addon
    property is exported as it is, unless its name is one of the
    loader's eight, in which case the loader's value wins.  The
    loader's own properties are the five tables, [getPlatformInfo],
    [healthCheck] and the version string of package.json. *)
Theorem audifyExports_values (rawAudify : Obj.Props) (k : string) :
  NoDup (Obj.keys rawAudify) →
  Obj.own (audifyExports rawAudify) k
  = match Obj.own rawAudify k with
    | Some (VFun fn) => Some (VFun (withErrorHandling fn k))
    | other =>
        match Obj.own
                [ ("OpusApplication", VObj OpusApplication);
                  ("RtAudioApi", VObj RtAudioApi);
                  ("RtAudioFormat", VObj RtAudioFormat);
                  ("RtAudioStreamFlags", VObj RtAudioStreamFlags);
                  ("RtAudioErrorType", VObj RtAudioErrorType);
                  ("getPlatformInfo", VFun GetPlatformInfo);
                  ("version", VStr "2.0.1");
                  ("healthCheck", VFun HealthCheck) ] k with
        | Some v => Some v
        | None => other
        end
    end.
Proof.
  intros Hnd. fold loader_entries.
  assert (Obj.own (audifyExports_literal rawAudify) k
          = match Obj.own loader_entries k with
            | Some v => Some v
            | None => Obj.own rawAudify k
            end) as Hlit.
  { rewrite audifyExports_literal_eq. unfold Obj.literal.
    rewrite own_fold_set, reverse_app, own_app.
    rewrite !own_reverse by first [done | compute_done].
    by destruct (Obj.own loader_entries k), (Obj.own rawAudify k). }
  unfold audifyExports, wrap_native_functions.
  change (λ exports key, _) with (wrap_step rawAudify).
  rewrite own_wrap_fold, Hlit. unfold Obj.get.
  destruct (Obj.own rawAudify k) as [v|] eqn:Hown.
  - destruct v; try done.
    rewrite decide_True; [done|]. by eapply Obj.own_Some_key.
  - by destruct (decide (k ∈ Obj.object_prototype)).
Qed.

(** ** postinstall.js *)

(** [path.join] of a non-empty first argument and plain names: the
    first argument is normalised, the names are appended. *)
Lemma join_cons_plain (fl : Path.Flavour) (d : string) (tail : list string) :
  d ≠ "" → tail ≠ [] → Forall (Path.plain fl) tail →
  Path.join fl (d :: tail)
  = let p := Str.join (Path.sep fl)
               (Path.normalizeString (negb (Path.starts_with_sep fl d))
                  (Path.split (Path.is_sep fl) d) ++ tail) in
    if Path.starts_with_sep fl d then Path.sep fl +:+ p else p.
Proof.
  intros Hd Hne Htail.
  assert (filter (λ s, s ≠ "") tail = tail) as Hf.
  { clear Hne. induction Htail as [|t tail Ht _ IH]; [done|].
    rewrite filter_cons_True by apply Ht. by rewrite IH. }
  unfold Path.join. rewrite filter_cons_True, Hf by done.
  destruct (Path.join_app_tail (Path.sep fl) [d] tail Hne) as [q Hq].
  change ([d] ++ tail) with (d :: tail) in Hq.
  assert (Str.join (Path.sep fl) tail ≠ "") as Hj.
  { destruct tail as [|t tail]; [done|].
    apply Path.join_cons_ne. by apply Forall_inv in Htail as (? & _). }
  assert (Path.ends_with_sep fl (Str.join (Path.sep fl) (d :: tail)) = false) as Htrail.
  { rewrite Hq. unfold Path.ends_with_sep. rewrite Str.last_app by done.
    by apply Path.last_join_plain. }
  assert (Path.starts_with_sep fl (Str.join (Path.sep fl) (d :: tail))
          = Path.starts_with_sep fl d) as Hhead.
  { destruct d as [|c d]; [done|]. by destruct tail. }
  unfold Path.normalize.
  rewrite decide_False; [|rewrite Hq; by intros [_ ?]%Str.app_eq_nil].
  rewrite Htrail, Hhead, Path.split_join, (Path.normalizeString_plain_tail fl) by done.
  simpl.
  destruct (Path.join_app_tail (Path.sep fl)
    (Path.normalizeString (negb (Path.starts_with_sep fl d))
       (Path.split (Path.is_sep fl) d)) tail Hne) as [q' Hq'].
  rewrite decide_False; [done|]. rewrite Hq'. by intros [_ ?]%Str.app_eq_nil.
Qed.

(** [path.join(root/sub, "..", names...)] is [path.join(root, names...)]:
    the step up cancels the subdirectory. *)
Lemma join_up_from_subdirectory (fl : Path.Flavour) (root sub : string)
    (tail : list string) :
  root ≠ "" → Path.plain fl sub → tail ≠ [] → Forall (Path.plain fl) tail →
  Path.join fl ((root +:+ Path.sep fl +:+ sub) :: ".." :: tail)
  = Path.join fl (root :: tail).
Proof.
  intros Hroot Hsub Hne Htail.
  assert (filter (λ s, s ≠ "") tail = tail) as Hf.
  { clear Hne. induction Htail as [|t tail Ht _ IH]; [done|].
    rewrite filter_cons_True by apply Ht. by rewrite IH. }
  set (up := root +:+ Path.sep fl +:+ sub +:+ Path.sep fl +:+ "..").
  assert (up ≠ "") as Hup.
  { unfold up. by intros [? _]%Str.app_eq_nil. }
  assert (Path.join fl ((root +:+ Path.sep fl +:+ sub) :: ".." :: tail)
          = Path.join fl (up :: tail)) as ->.
  { unfold Path.join.
    rewrite (filter_cons_True _ (root +:+ _)) by (by intros [? _]%Str.app_eq_nil).
    rewrite (filter_cons_True _ "..") by done.
    rewrite (filter_cons_True _ up) by done.
    rewrite Hf. destruct tail as [|t tail]; [done|].
    f_equal. unfold up.
    change (Str.join (Path.sep fl) ((root +:+ Path.sep fl +:+ sub) :: ".." :: t :: tail))
      with ((root +:+ Path.sep fl +:+ sub) +:+ Path.sep fl +:+ ".." +:+ Path.sep fl
            +:+ Str.join (Path.sep fl) (t :: tail)).
    change (Str.join (Path.sep fl)
              ((root +:+ Path.sep fl +:+ sub +:+ Path.sep fl +:+ "..") :: t :: tail))
      with ((root +:+ Path.sep fl +:+ sub +:+ Path.sep fl +:+ "..") +:+ Path.sep fl
            +:+ Str.join (Path.sep fl) (t :: tail)).
    by rewrite !Str.app_assoc. }
  rewrite !join_cons_plain by done.
  assert (Path.starts_with_sep fl up = Path.starts_with_sep fl root) as ->.
  { unfold up. destruct root as [|c root]; [done|]. reflexivity. }
  assert (Path.split (Path.is_sep fl) up
          = Path.split (Path.is_sep fl) root ++ [sub; ".."]) as ->.
  { unfold up, Path.sep.
    rewrite !Str.app_cons, !Str.app_nil_l.
    rewrite Path.split_app_sep by apply Path.is_sep_sep_char.
    f_equal.
    rewrite Path.split_app_sep by apply Path.is_sep_sep_char.
    destruct Hsub as (_ & _ & _ & Hs). rewrite (Path.split_plain _ _ Hs).
    by destruct fl. }
  assert (∀ allow, Path.normalizeString allow (Path.split (Path.is_sep fl) root ++ [sub; ".."])
                   = Path.normalizeString allow (Path.split (Path.is_sep fl) root)) as ->.
  { intros allow. unfold Path.normalizeString. rewrite fold_left_app. simpl.
    f_equal. destruct Hsub as (H1 & H2 & H3 & _).
    unfold Path.norm_step at 2.
    rewrite decide_False by (by intros [?|?]).
    rewrite decide_False by done.
    unfold Path.norm_step. simpl.
    by rewrite decide_False by done. }
  done.
Qed.

Module PostInstall.

Section Script.

Variable NState : Type.

(** [require(request)] in postinstall.js.  Node resolves the request
    against the directory of the script and gives the exports of the
    module it finds, evaluating the module unless it is loaded already;
    it throws an [Error] "Cannot find module ..." when it finds none,
    and what the module throws when evaluating it fails. *)
Variable require_js : string → M NState JsVal.

Variable native_call : string → JsVal → list JsVal → M NState JsVal.

(** [JSON.stringify(value, null, 2)]: the text that the script prints.
    It never throws on the values of this model, which have no cycles
    and no big integers. *)
Variable JSON_stringify : JsVal → JsVal.

(** The environment in which the functions of a module given by
    [require_js] run: the one the module was evaluated in, with the
    directory of the module's file as [__dirname]. *)
Variable index_env : Env.

(** The environment of postinstall.js; [dirname env] is its own
    directory. *)
Variable env : Env.

Local Abbreviation World := (World NState).

Local Notation "x <- m ;; k" := (bind m (λ x, k))
  (at level 100, m at next level, right associativity).
Local Notation "m ;; k" := (bind m (λ _, k))
  (at level 100, right associativity).

(** Platform mapping (same as in index.js). *)
Definition PLATFORM_MAP : Obj.Props :=
  [ ("win32-x64", VStr "win32-x64");
    ("win32-ia32", VStr "win32-ia32");
    ("win32-arm64", VStr "win32-arm64");
    ("darwin-x64", VStr "darwin-x64");
    ("darwin-arm64", VStr "darwin-arm64");
    ("linux-x64", VStr "linux-x64");
    ("linux-arm64", VStr "linux-arm64");
    ("linux-arm", VStr "linux-arm") ].

Definition getCurrentPlatform : string :=
  let platform := os_platform env in
  let arch := os_arch env in
  platform +:+ "-" +:+ arch.

(** Returns [null] ([None]) for a platform that is not in the table. *)
Definition getBinaryPath : M NState (option string) :=
  let key := getCurrentPlatform in
  let platformFolder := Obj.get PLATFORM_MAP key in
  if negb (Js.truthy platformFolder) then
    console_warn [VStr ("[Audify-JS-Plus] Warning: Unsupported platform " +:+ key)] ;;
    ret None
  else
    binaryPath <- path_join env
      [VStr (dirname env); VStr ".."; VStr "prebuilds"; platformFolder;
       VStr "build"; VStr "Release"; VStr "audify.node"] ;;
    ret (Some binaryPath).

(** A call [f(...args)] of a value [f] with receiver [this]. *)
Definition call_value (f this : JsVal) (args : list JsVal) (what : string)
  : M NState JsVal :=
  match f with
  | VFun fn => call native_call index_env fn this args
  | _ => throw (VErr (what +:+ " is not a function"))
  end.

Definition runHealthCheck : M NState bool :=
  try_catch
    (audify <- require_js "../index.js" ;;
     healthCheck_ <- js_get audify "healthCheck" ;;
     health <- call_value healthCheck_ audify [] "audify.healthCheck" ;;
     console_log [VStr "[Audify-JS-Plus] Health check results:"] ;;
     console_log [JSON_stringify health] ;;
     status <- js_get health "status" ;;
     match status with
     | VStr "healthy" =>
         console_log [VStr "✅ [Audify-JS-Plus] Installation successful!"] ;;
         ret true
     | _ =>
         console_warn [VStr "⚠️  [Audify-JS-Plus] Installation completed with warnings"] ;;
         ret false
     end)
    (λ error,
       message <- js_get error "message" ;;
       console_error [VStr "❌ [Audify-JS-Plus] Installation failed:"; message] ;;
       ret false).

(** The callback that [main] hands to [setTimeout]. *)
Definition health_check_timer : M NState unit :=
  console_log [VStr "[Audify-JS-Plus] Running health check..."] ;;
  runHealthCheck ;;
  ret ().

(** [main]; the result is the list of callbacks it has registered with
    [setTimeout], which run after it has returned. *)
Definition main : M NState (list (M NState unit)) :=
  let platform := getCurrentPlatform in
  console_log [VStr ("[Audify-JS-Plus] Platform: " +:+ platform)] ;;
  binaryPath <- getBinaryPath ;;
  match binaryPath with
  | None | Some "" =>
      console_warn [VStr ("[Audify-JS-Plus] No binary available for platform " +:+ platform)] ;;
      console_warn [VStr "[Audify-JS-Plus] The package may not work on this platform"] ;;
      ret []
  | Some binaryPath =>
      console_log [VStr ("[Audify-JS-Plus] Binary path: " +:+ binaryPath)] ;;
      setBinaryPermissions env binaryPath ;;
      ret [health_check_timer]
  end.

End Script.

End PostInstall.

Arguments PostInstall.getBinaryPath {NState} env w.
Arguments PostInstall.runHealthCheck {NState} require_js native_call JSON_stringify index_env w.
Arguments PostInstall.main {NState} require_js native_call JSON_stringify index_env env w.
Arguments PostInstall.health_check_timer {NState} require_js native_call JSON_stringify index_env w.

Lemma join_nonempty (fl : Path.Flavour) (paths : list string) :
  Path.join fl paths ≠ "".
Proof.
  unfold Path.join. destruct (filter _ paths) as [|p parts]; [done|].
  unfold Path.normalize. generalize (Str.join (Path.sep fl) (p :: parts)) as joined.
  intros joined. destruct (decide (joined = "")); [done|].
  destruct (decide (_ = "")) as [_|Hp].
  - by destruct (Path.starts_with_sep fl joined), (Path.ends_with_sep fl joined), fl.
  - destruct (Path.starts_with_sep fl joined), (Path.ends_with_sep fl joined);
      try done; try (by destruct fl); by intros [? _]%Str.app_eq_nil.
Qed.

Lemma length_app (s t : string) :
  String.length (s +:+ t) = (String.length s + String.length t)%nat.
Proof. induction s as [|c s IH]; simpl; [done|]. by rewrite IH. Qed.

(** A list of segments with one more segment in it is written as a
    longer string. *)
Lemma join_insert_longer (sp x : string) (pre tail : list string) :
  sp ≠ "" → tail ≠ [] →
  (String.length (Str.join sp (pre ++ tail))
   < String.length (Str.join sp (pre ++ x :: tail)))%nat.
Proof.
  intros Hsp Htail. induction pre as [|a pre IH].
  - destruct tail as [|t tail]; [done|]. simpl app.
    change (Str.join sp (x :: t :: tail)) with (x +:+ sp +:+ Str.join sp (t :: tail)).
    rewrite !length_app. destruct sp; [done|]. simpl. lia.
  - destruct (pre ++ tail) as [|y l] eqn:E.
    { by apply app_eq_nil in E as [_ ?]. }
    destruct (pre ++ x :: tail) as [|y' l'] eqn:E'.
    { by apply app_eq_nil in E' as [_ ?]. }
    change (Str.join sp ((a :: pre) ++ tail)) with (Str.join sp (a :: pre ++ tail)).
    change (Str.join sp ((a :: pre) ++ x :: tail))
      with (Str.join sp (a :: pre ++ x :: tail)).
    rewrite E, E'.
    change (Str.join sp (a :: y :: l)) with (a +:+ sp +:+ Str.join sp (y :: l)).
    change (Str.join sp (a :: y' :: l')) with (a +:+ sp +:+ Str.join sp (y' :: l')).
    rewrite !length_app. lia.
Qed.

(** [path.join(root/sub, names...)] is not [path.join(root, names...)]:
    from a subdirectory the names lead elsewhere. *)
Lemma join_beside_differs (fl : Path.Flavour) (root sub : string)
    (tail : list string) :
  root ≠ "" → Path.plain fl sub → tail ≠ [] → Forall (Path.plain fl) tail →
  Path.join fl (root :: tail)
  ≠ Path.join fl ((root +:+ Path.sep fl +:+ sub) :: tail).
Proof.
  intros Hroot Hsub Hne Htail.
  rewrite !join_cons_plain; [|by intros [? _]%Str.app_eq_nil|done..].
  assert (Path.starts_with_sep fl (root +:+ Path.sep fl +:+ sub)
          = Path.starts_with_sep fl root) as ->.
  { destruct root as [|c root]; [done|]. reflexivity. }
  assert (Path.split (Path.is_sep fl) (root +:+ Path.sep fl +:+ sub)
          = Path.split (Path.is_sep fl) root ++ [sub]) as ->.
  { unfold Path.sep. rewrite !Str.app_cons, !Str.app_nil_l.
    rewrite Path.split_app_sep by apply Path.is_sep_sep_char.
    destruct Hsub as (_ & _ & _ & Hs). by rewrite (Path.split_plain _ _ Hs). }
  rewrite (Path.normalizeString_plain_tail fl) by by apply Forall_singleton.
  rewrite <- app_assoc. simpl app. cbv zeta.
  set (pre := Path.normalizeString _ _).
  assert (String.length (Str.join (Path.sep fl) (pre ++ tail))
          < String.length (Str.join (Path.sep fl) (pre ++ sub :: tail)))%nat as Hlen.
  { apply join_insert_longer; [by destruct fl|done]. }
  intros Heq. apply (f_equal String.length) in Heq.
  destruct (Path.starts_with_sep fl root); rewrite ?length_app in Heq; lia.
Qed.

Section PostInstallFacts.

Variable NState : Type.
Variable require_js : string → M NState JsVal.
Variable native_call : string → JsVal → list JsVal → M NState JsVal.
Variable JSON_stringify : JsVal → JsVal.
Variable index_env : Env.
Variable env : Env.

Local Abbreviation World := (World NState).

Definition unsupported_warning (key : string) : LogLine :=
  (WARN, [VStr ("[Audify-JS-Plus] Warning: Unsupported platform " +:+ key)]).

Lemma postinstall_getBinaryPath_eq (w : World) :
  PostInstall.getBinaryPath env w
  = match Obj.own PLATFORM_MAP (platform_key env) with
    | Some (VStr platformFolder) =>
        (Ret (Some (Path.join (path_flavour env)
                      [dirname env; ".."; "prebuilds"; platformFolder;
                       "build"; "Release"; "audify.node"])), w)
    | _ => (Ret None, logged w (unsupported_warning (platform_key env)))
    end.
Proof using Type.
  unfold PostInstall.getBinaryPath, PostInstall.getCurrentPlatform.
  fold (platform_key env).
  change PostInstall.PLATFORM_MAP with PLATFORM_MAP.
  rewrite get_PLATFORM_MAP.
  destruct (Obj.own PLATFORM_MAP (platform_key env)) as [v|] eqn:Hown; [|done].
  destruct (own_PLATFORM_MAP _ _ Hown) as [-> Hplain].
  destruct (Hplain Path.Posix) as (Hne & _). simpl.
  by rewrite bool_decide_eq_false_2 by done.
Qed.

(** X8.  The script's [getBinaryPath] never throws, in any environment,
    and leaves the file system alone.  It returns null, after one
    warning, exactly where the loader's [getBinaryPath] throws: for a
    platform that is not in the table.  For a platform in the table,
    with the script in a directory root/sub, it returns the path that
    the loader resolves from root, one directory above the script;
    that is not the path that the loader resolves from the script's
    own directory.  A loader beside the script, as index.js is in this
    repository, looks for the binary in another place than the
    script. *)
Theorem postinstall_getBinaryPath_one_level_up (w : World) :
  (∃ r w',
     PostInstall.getBinaryPath env w = (Ret r, w')
     ∧ w_fs w' = w_fs w ∧ w_sched w' = w_sched w
     ∧ (r = None ↔ platform_key env ∉ Obj.keys PLATFORM_MAP)
     ∧ (r = None ↔ ∃ m, fst (getBinaryPath env w) = Throw (VErr m))
     ∧ (r = None →
        w_log w'
        = w_log w ++ [(WARN, [VStr ("[Audify-JS-Plus] Warning: Unsupported platform "
                                    +:+ os_platform env +:+ "-" +:+ os_arch env)])]))
  ∧ (∀ root sub : string,
       root ≠ "" →
       Path.plain (path_flavour env) sub →
       dirname env = root +:+ Path.sep (path_flavour env) +:+ sub →
       platform_key env ∈ Obj.keys PLATFORM_MAP →
       ∃ above beside : string,
         fst (getBinaryPath
                (mkEnv (os_platform env) (os_arch env) root
                       (vscode_pid env) (proc_uid env) (proc_groups env)) w)
         = Ret above
         ∧ fst (getBinaryPath env w) = Ret beside
         ∧ PostInstall.getBinaryPath env w = (Ret (Some above), w)
         ∧ above ≠ beside).
Proof using Type.
  rewrite postinstall_getBinaryPath_eq. split.
  - destruct (Obj.own PLATFORM_MAP (platform_key env)) as [v|] eqn:Hown.
    + destruct (own_PLATFORM_MAP _ _ Hown) as [-> Hplain].
      assert (platform_key env ∈ Obj.keys PLATFORM_MAP) as Hin
        by by eapply Obj.own_Some_key.
      destruct (supported_resolved env Hin) as [path Hres].
      eexists _, _. split_and!; [done|done|done| | |done].
      * split; [done|]. by intros ?.
      * split; [done|]. intros [m Hm].
        by rewrite (getBinaryPath_supported NState env w path Hres) in Hm.
    + assert (platform_key env ∉ Obj.keys PLATFORM_MAP) as Hnin
        by by apply Obj.own_None.
      eexists _, _. split_and!; [done|done|done|done| |done].
      split; [|done]. intros _.
      rewrite (getBinaryPath_unsupported NState env w); [by eexists|].
      by apply resolved_path_None.
  - intros root sub Hroot Hsub Hdir Hin.
    set (above_env := mkEnv (os_platform env) (os_arch env) root
                        (vscode_pid env) (proc_uid env) (proc_groups env)).
    assert (platform_key above_env = platform_key env) as Hkey by done.
    assert (path_flavour above_env = path_flavour env) as Hfl by done.
    destruct (supported_resolved env Hin) as [beside Hbeside].
    rewrite <- Hkey in Hin.
    destruct (supported_resolved above_env Hin) as [above Habove].
    exists above, beside.
    rewrite (getBinaryPath_supported NState above_env w above Habove).
    rewrite (getBinaryPath_supported NState env w beside Hbeside).
    unfold resolved_path in Habove, Hbeside. rewrite Hkey, Hfl in Habove.
    destruct (Obj.own PLATFORM_MAP (platform_key env)) as [v|] eqn:Hown; [|done].
    destruct (own_PLATFORM_MAP _ _ Hown) as [-> Hplain].
    injection Habove as <-. injection Hbeside as <-.
    assert (Forall (Path.plain (path_flavour env))
              ["prebuilds"; platform_key env; "build"; "Release"; "audify.node"])
      as Htail.
    { repeat (apply Forall_cons_2;
              [first [apply Hplain | by destruct (path_flavour env); compute_done]|]).
      apply Forall_nil_2. }
    split_and!; [done|done| |].
    + do 3 f_equal. rewrite Hdir. simpl.
      by apply join_up_from_subdirectory.
    + rewrite Hdir. simpl. by apply join_beside_differs.
Qed.

Definition installation_failed_line (message : string) : LogLine :=
  (ERROR, [VStr "❌ [Audify-JS-Plus] Installation failed:"; VStr message]).

(** X9.  [runHealthCheck] returns false, and throws nothing, whenever
    [require('../index.js')] throws an [Error], be it that no module
    is found there or that index.js fails to load: the error is logged
    as "Installation failed:" with its message.  It returns false too
    when the module found has no [healthCheck].  When the module is
    this package's index.js, exporting its own [healthCheck], the
    result is true exactly when the report of that health check has
    status "healthy". *)
Theorem runHealthCheck_result (w : World) :
  (∀ m w1,
     require_js "../index.js" w = (Throw (VErr m), w1) →
     PostInstall.runHealthCheck require_js native_call JSON_stringify index_env w
     = (Ret false,
        logged w1 (ERROR, [VStr "❌ [Audify-JS-Plus] Installation failed:"; VStr m])))
  ∧ (∀ exports w1,
       require_js "../index.js" w = (Ret (VObj exports), w1) →
       Obj.get exports "healthCheck" = VUndef →
       PostInstall.runHealthCheck require_js native_call JSON_stringify index_env w
       = (Ret false,
          logged w1 (ERROR, [VStr "❌ [Audify-JS-Plus] Installation failed:";
                             VStr "audify.healthCheck is not a function"])))
  ∧ (∀ exports w1,
       require_js "../index.js" w = (Ret (VObj exports), w1) →
       Obj.own exports "healthCheck" = Some (VFun HealthCheck) →
       ∃ report w2 b w',
         healthCheck index_env w1 = (Ret (VObj report), w2)
         ∧ PostInstall.runHealthCheck require_js native_call JSON_stringify index_env w
           = (Ret b, w')
         ∧ (b = true ↔ Obj.own report "status" = Some (VStr "healthy"))).
Proof using Type.
  split_and!.
  - intros m w1 Hthrow.
    unfold PostInstall.runHealthCheck, try_catch, bind.
    by rewrite Hthrow.
  - intros exports w1 Hret Hnone.
    unfold PostInstall.runHealthCheck, try_catch, bind. rewrite Hret.
    simpl. by rewrite Hnone.
  - intros exports w1 Hret Hown.
    unfold PostInstall.runHealthCheck, try_catch, bind. rewrite Hret.
    unfold js_get at 1, ret. cbv beta iota.
    unfold Obj.get. rewrite Hown.
    unfold PostInstall.call_value.
    change (call native_call index_env HealthCheck (VObj exports) [] w1)
      with (healthCheck index_env w1).
    destruct (resolved_path index_env) as [path|] eqn:Hres.
    + destruct (healthCheck_supported NState _ w1 path Hres) as (b & w2 & _ & Hh).
      rewrite Hh. unfold health_report.
      destruct b; simpl; eexists _, w2, _, _;
        (split; [reflexivity|]); (split; [reflexivity|]); by split.
    + rewrite (healthCheck_unsupported NState _ w1 Hres).
      eexists _, _, false, _. split; [done|]. unfold error_report. simpl.
      split; [reflexivity|]. by split.
Qed.

(** X10.  [main] never throws.  On a platform that is not in the
    table it makes no call of [fs] (the file system and the pending
    changes of other processes are as before) and registers no health
    check.  On a platform in the table it runs [setBinaryPermissions]
    on the resolved path and registers exactly one health check,
    whether or not the permissions could be set. *)
Theorem main_result (w : World) :
  (platform_key env ∉ Obj.keys PLATFORM_MAP →
     ∃ w',
       PostInstall.main require_js native_call JSON_stringify index_env env w
       = (Ret [], w')
       ∧ w_fs w' = w_fs w ∧ w_sched w' = w_sched w)
  ∧ (platform_key env ∈ Obj.keys PLATFORM_MAP →
     ∃ path w1 b w',
       PostInstall.getBinaryPath env w = (Ret (Some path), w)
       ∧ setBinaryPermissions env path w1 = (Ret b, w')
       ∧ w_fs w1 = w_fs w ∧ w_sched w1 = w_sched w
       ∧ PostInstall.main require_js native_call JSON_stringify index_env env w
         = (Ret [PostInstall.health_check_timer require_js native_call
                   JSON_stringify index_env], w')).
Proof using Type.
  split.
  - intros Hnin%Obj.own_None.
    unfold PostInstall.main, bind. simpl.
    rewrite postinstall_getBinaryPath_eq, Hnin. simpl. by eexists.
  - intros Hin.
    destruct (Obj.own PLATFORM_MAP (platform_key env)) as [v|] eqn:Hown;
      [|by apply Obj.own_None in Hown].
    destruct (own_PLATFORM_MAP _ _ Hown) as [-> _].
    pose proof (postinstall_getBinaryPath_eq w) as Hpath. rewrite Hown in Hpath.
    remember (Path.join (path_flavour env)
                [dirname env; ".."; "prebuilds"; platform_key env;
                 "build"; "Release"; "audify.node"]) as path eqn:Epath.
    assert (path ≠ "") as Hne by (rewrite Epath; apply join_nonempty).
    unfold PostInstall.main, bind, console_log, console. cbv beta iota zeta.
    rewrite !postinstall_getBinaryPath_eq, Hown, <- Epath.
    destruct path as [|c p]; [done|]. cbv beta iota zeta.
    match goal with |- context [setBinaryPermissions env ?p0 ?w0] =>
      destruct (setBinaryPermissions_total NState env p0 w0) as (b & w' & Hset);
      exists p0, w0, b, w' end.
    rewrite Hset. by split_and!.
Qed.

End PostInstallFacts.

Section PermissionFacts.

Variable NState : Type.
Variable env : Env.

Local Abbreviation World := (World NState).

(** X11.  [setBinaryPermissions] never throws, and with no other
    process at work it touches no file but the one it is given: every
    other path is as before, a missing file is not created, and an
    existing file keeps its owner and group. *)
Theorem setBinaryPermissions_touches_one_file (path : string) (w : World) :
  ∃ b w',
    setBinaryPermissions env path w = (Ret b, w')
    ∧ (w_sched w = [] →
         (∀ other, other ≠ path → w_fs w' !! other = w_fs w !! other)
         ∧ (w_fs w !! path = None → w_fs w' !! path = None)
         ∧ (∀ f, w_fs w !! path = Some f →
              ∃ f', w_fs w' !! path = Some f'
                    ∧ f_uid f' = f_uid f ∧ f_gid f' = f_gid f)).
Proof using Type.
  destruct (decide (os_platform env = "win32")) as [Hwin|Hwin].
  { rewrite (setBinaryPermissions_windows NState env path w Hwin).
    eexists _, _. split; [done|]. intros _. split_and!; [done..|].
    intros f Hf. by exists f. }
  destruct (setBinaryPermissions_total NState env path w) as (b & w' & Hrun).
  exists b, w'. split; [done|]. intros Hq.
  rewrite (setBinaryPermissions_quiet NState env path w Hwin Hq) in Hrun.
  destruct (w_fs w !! path) as [f|] eqn:Hf.
  - destruct (chmod_error env f); injection Hrun as <- <-; simpl.
    + split_and!; [done..|]. intros ? [= <-]. by exists f.
    + split_and!; [|done|].
      * intros other Hne. by rewrite lookup_insert_ne.
      * intros ? [= <-]. eexists. by rewrite lookup_insert_eq.
  - injection Hrun as <- <-. simpl. by split_and!.
Qed.

(** X12.  After a successful [setBinaryPermissions] (not on Windows,
    no other process at work) the file passes [verifyBinary] for the
    process that set the permissions, whether or not it could read the
    file before; and setting the permissions again succeeds and
    changes nothing. *)
Theorem setBinaryPermissions_makes_readable (path : string) (w w' : World) :
  os_platform env ≠ "win32" →
  w_sched w = [] →
  setBinaryPermissions env path w = (Ret true, w') →
  (∃ w'', verifyBinary env path w' = (Ret true, w''))
  ∧ (∃ w'',
       setBinaryPermissions env path w' = (Ret true, w'')
       ∧ w_fs w'' = w_fs w').
Proof using Type.
  intros Hwin Hq Hrun.
  rewrite (setBinaryPermissions_quiet NState env path w Hwin Hq) in Hrun.
  destruct (w_fs w !! path) as [f|] eqn:Hf; [|done].
  destruct (chmod_error env f) eqn:Hmay; [done|].
  injection Hrun as <-.
  set (f' := mkFileOn (octal [7; 5; 5]) (f_uid f) (f_gid f) (f_refusal f)).
  assert (w_sched (logged (with_mode NState w path f (octal [7; 5; 5]))
                     (permissions_set_line path)) = []) as Hq' by done.
  assert (w_fs (logged (with_mode NState w path f (octal [7; 5; 5]))
                  (permissions_set_line path)) !! path = Some f') as Hf'.
  { simpl. by rewrite lookup_insert_eq. }
  split.
  - rewrite verifyBinary_quiet by done.
    unfold readable. rewrite Hf'. eexists. f_equal. f_equal.
    unfold may_read. simpl.
    by repeat (case_match; try done).
  - rewrite (setBinaryPermissions_quiet NState env path _ Hwin Hq'), Hf'.
    assert (chmod_error env f' = None) as -> by done.
    eexists. split; [done|]. simpl. by rewrite insert_insert_eq.
Qed.

End PermissionFacts.

(** ** scripts/download_binaries_script.js *)

Module Download.

(** [String.prototype.endsWith]. *)
Fixpoint endsWith (s suffix : string) : bool :=
  bool_decide (s = suffix)
  || match s with
     | "" => false
     | String _ s' => endsWith s' suffix
     end.

Lemma endsWith_spec (s suffix : string) :
  endsWith s suffix = true ↔ Str.ends_with s suffix.
Proof.
  induction s as [|c s IH]; simpl.
  - rewrite orb_false_r, bool_decide_eq_true. split.
    + intros <-. by exists "".
    + intros [pre H]. symmetry in H. by apply Str.app_eq_nil in H as [_ ->].
  - rewrite orb_true_iff, bool_decide_eq_true, IH. split.
    + intros [<-|[pre ->]]; [by exists "" | by exists (String c pre)].
    + intros [[|a pre] H].
      * left. by rewrite Str.app_nil_l in H.
      * right. rewrite Str.app_cons in H. injection H as _ ->. by exists pre.
Qed.

(** The binaries of the release, by archive and platform. *)
Definition BINARIES : list (string * string) :=
  [ ("audify-v1.9.0-napi-v8-darwin-arm64.tar.gz", "darwin-arm64");
    ("audify-v1.9.0-napi-v8-darwin-x64.tar.gz", "darwin-x64");
    ("audify-v1.9.0-napi-v8-linux-arm.tar.gz", "linux-arm");
    ("audify-v1.9.0-napi-v8-linux-arm64.tar.gz", "linux-arm64");
    ("audify-v1.9.0-napi-v8-linux-x64.tar.gz", "linux-x64");
    ("audify-v1.9.0-napi-v8-win32-ia32.tar.gz", "win32-ia32");
    ("audify-v1.9.0-napi-v8-win32-x64.tar.gz", "win32-x64") ].

(** [path.join('prebuilds', platform, 'build', 'Release',
    'audify.node')], where the script puts the binary of [platform]. *)
Definition targetPath (fl : Path.Flavour) (platform : string) : string :=
  Path.join fl ["prebuilds"; platform; "build"; "Release"; "audify.node"].

(** What lies at a path, as [fs.readdirSync] and [fs.statSync] show
    it: a file; a directory with its entries, in the order in which
    [readdirSync] lists them; a directory that cannot be listed
    ([readdirSync] throws, "EACCES: permission denied"); an entry that
    cannot be examined ([statSync] throws: "ENOENT: no such file or
    directory" for a symbolic link that leads nowhere, ELOOP,
    EACCES). *)
#[warnings="-register-all"]
Inductive Tree : Type :=
| TFile
| TDir (entries : list (string * Tree))
| TSealed (code : string)
| TBroken (code : string).

Section Script.

Variable NState : Type.

(** [fs.copyFileSync(src, dest)]. *)
Variable copyFileSync : string → string → M NState unit.

Variable env : Env.

Local Notation "x <- m ;; k" := (bind m (λ x, k))
  (at level 100, m at next level, right associativity).
Local Notation "m ;; k" := (bind m (λ _, k))
  (at level 100, right associativity).

(** The inner function of [findAndMoveNodeFile]; [t] is what lies at
    [dir].  [readdirSync(dir)] throws unless [dir] is a directory that
    can be listed; [statSync(fullPath)] throws on an entry that cannot
    be examined. *)
Fixpoint findNodeFile (dir : string) (t : Tree) : M NState (option string) :=
  match t with
  | TFile => throw (fs_error "ENOTDIR: not a directory" "scandir" dir)
  | TSealed code | TBroken code => throw (fs_error code "scandir" dir)
  | TDir files =>
      (fix loop (files : list (string * Tree)) : M NState (option string) :=
         match files with
         | [] => ret None
         | (file, child) :: rest =>
             fullPath <- path_join env [VStr dir; VStr file] ;;
             match child with
             | TBroken code => throw (fs_error code "stat" fullPath)
             | TDir _ | TSealed _ =>
                 found <- findNodeFile fullPath child ;;
                 match found with
                 | Some (String _ _) => ret found
                 | _ => loop rest
                 end
             | TFile =>
                 if endsWith file ".node" then
                   console_log [VStr ("  🎯 Found: " +:+ fullPath)] ;;
                   ret (Some fullPath)
                 else loop rest
             end
         end) files
  end.

Definition findAndMoveNodeFile (extractDir targetPath : string) (t : Tree)
  : M NState bool :=
  console_log [VStr ("🔍 Looking for .node file in: " +:+ extractDir)] ;;
  nodeFile <- findNodeFile extractDir t ;;
  match nodeFile with
  | Some (String _ _ as nodeFile) =>
      copyFileSync nodeFile targetPath ;;
      console_log [VStr ("  ✅ Moved to: " +:+ targetPath)] ;;
      ret true
  | _ =>
      console_error [VStr ("  ❌ No .node file found in " +:+ extractDir)] ;;
      ret false
  end.

End Script.

End Download.

Arguments Download.findNodeFile {NState} env dir t w.
Arguments Download.findAndMoveNodeFile {NState} copyFileSync env extractDir targetPath t w.

(** What decides a search, met in depth-first order: a regular file
    whose name ends in ".node", or something that cannot be listed or
    examined. *)
Inductive Event : Type := NodeFile | Failure.

(** The events below the entry [file], in the order of a depth-first
    walk that follows [readdirSync]. *)
Fixpoint entry_events (file : string) (t : Download.Tree) : list Event :=
  match t with
  | Download.TFile => if Download.endsWith file ".node" then [NodeFile] else []
  | Download.TSealed _ | Download.TBroken _ => [Failure]
  | Download.TDir files =>
      (fix all (files : list (string * Download.Tree)) : list Event :=
         match files with
         | [] => []
         | (file, child) :: rest => entry_events file child ++ all rest
         end) files
  end.

Definition dir_events (files : list (string * Download.Tree)) : list Event :=
  entry_events "" (Download.TDir files).

(** The first event of a search that starts at a path where [t] lies:
    the start itself fails unless it is a directory that can be
    listed. *)
Definition first_event (t : Download.Tree) : option Event :=
  match t with
  | Download.TDir files => head (dir_events files)
  | _ => Some Failure
  end.

(** The entries of the tree have names, not paths: no separator, and
    neither "." nor "..". *)
Fixpoint names_plain (fl : Path.Flavour) (t : Download.Tree) : Prop :=
  match t with
  | Download.TDir files =>
      (fix all (files : list (string * Download.Tree)) : Prop :=
         match files with
         | [] => True
         | (file, child) :: rest =>
             Path.plain fl file ∧ names_plain fl child ∧ all rest
         end) files
  | _ => True
  end.

Fixpoint weight (t : Download.Tree) : nat :=
  match t with
  | Download.TDir files =>
      S ((fix sum (files : list (string * Download.Tree)) : nat :=
            match files with
            | [] => 0%nat
            | (_, child) :: rest => (weight child + sum rest)%nat
            end) files)
  | _ => 1%nat
  end.

Lemma weight_pos (t : Download.Tree) : (1 ≤ weight t)%nat.
Proof. destruct t; simpl; lia. Qed.

Lemma dir_events_cons (file : string) (child : Download.Tree)
    (rest : list (string * Download.Tree)) :
  dir_events ((file, child) :: rest) = entry_events file child ++ dir_events rest.
Proof. reflexivity. Qed.

Lemma head_app_nil {A : Type} (l k : list A) : head l = None → head (l ++ k) = head k.
Proof. by destruct l. Qed.

Lemma head_app_Some {A : Type} (l k : list A) (x : A) :
  head l = Some x → head (l ++ k) = Some x.
Proof. by destruct l. Qed.

Section DownloadFacts.

Variable NState : Type.
Variable copyFileSync : string → string → M NState unit.
Variable env : Env.

Local Abbreviation World := (World NState).

Lemma findNodeFile_nil (dir : string) (w : World) :
  Download.findNodeFile env dir (Download.TDir []) w = (Ret None, w).
Proof using Type. reflexivity. Qed.

Lemma findNodeFile_cons (dir file : string) (child : Download.Tree)
    (rest : list (string * Download.Tree)) (w : World) :
  Download.findNodeFile env dir (Download.TDir ((file, child) :: rest)) w
  = let fullPath := Path.join (path_flavour env) [dir; file] in
    match child with
    | Download.TBroken code => (Throw (fs_error code "stat" fullPath), w)
    | Download.TSealed code => (Throw (fs_error code "scandir" fullPath), w)
    | Download.TDir _ =>
        match Download.findNodeFile env fullPath child w with
        | (Ret (Some (String c p)), w') => (Ret (Some (String c p)), w')
        | (Ret _, w') => Download.findNodeFile env dir (Download.TDir rest) w'
        | (Throw e, w') => (Throw e, w')
        end
    | Download.TFile =>
        if Download.endsWith file ".node" then
          (Ret (Some fullPath),
           logged w (LOG, [VStr ("  🎯 Found: " +:+ fullPath)]))
        else Download.findNodeFile env dir (Download.TDir rest) w
    end.
Proof using Type.
  cbn [Download.findNodeFile]. unfold bind, path_join. cbn [strings_of fmap option_fmap option_map].
  unfold ret. destruct child as [|files|code|code].
  - by destruct (Download.endsWith file ".node").
  - destruct (Download.findNodeFile env _ (Download.TDir files) w) as [[[[|c p]|]|e] w'];
      reflexivity.
  - reflexivity.
  - reflexivity.
Qed.

(** What the first event means for the outcome of a search. *)
Definition decided (fl : Path.Flavour) (t : Download.Tree) (event : option Event)
    (out : Result (option string)) : Prop :=
  match event with
  | None => out = Ret None
  | Some NodeFile =>
      ∃ p, out = Ret (Some p) ∧ p ≠ ""
           ∧ (names_plain fl t → Str.ends_with p ".node")
  | Some Failure => ∃ m, out = Throw (VErr m)
  end.

Lemma findNodeFile_search_bounded (n : nat) :
  ∀ (files : list (string * Download.Tree)) (dir : string) (w : World),
    (weight (Download.TDir files) ≤ n)%nat →
    ∃ out w',
      Download.findNodeFile env dir (Download.TDir files) w = (out, w')
      ∧ w_fs w' = w_fs w
      ∧ decided (path_flavour env) (Download.TDir files) (head (dir_events files)) out.
Proof using Type.
  induction n as [|n IH]; intros files dir w Hn; [simpl in Hn; lia|].
  destruct files as [|[file child] rest].
  { rewrite findNodeFile_nil. by exists (Ret None), w. }
  assert (weight (Download.TDir rest) ≤ n)%nat as Hrest.
  { pose proof (weight_pos child). simpl in *. lia. }
  rewrite findNodeFile_cons, dir_events_cons. cbv zeta.
  destruct child as [|files|code|code].
  - cbn [entry_events]. destruct (Download.endsWith file ".node") eqn:Hends.
    + eexists _, _. split_and!; [done|done|].
      eexists. split_and!; [done|apply join_nonempty|].
      intros (Hplain & _).
      eapply ends_with_trans; [|by apply Download.endsWith_spec].
      by apply (Path.join_plain_tail _ dir [file]); [|apply Forall_singleton].
    + destruct (IH rest dir w Hrest) as (out & w' & -> & Hfs & Hout).
      exists out, w'. split_and!; [done|done|]. simpl app.
      destruct (head (dir_events rest)) as [[|]|]; [|done|done].
      destruct Hout as (p & -> & Hne & Hend).
      exists p. split_and!; [done|done|]. intros (_ & _ & Hpl). by apply Hend.
  - assert (weight (Download.TDir files) ≤ n)%nat as Hchild.
    { simpl in *. lia. }
    destruct (IH files (Path.join (path_flavour env) [dir; file]) w Hchild)
      as (outc & w1 & -> & Hfs1 & Houtc).
    change (entry_events file (Download.TDir files)) with (dir_events files).
    destruct (head (dir_events files)) as [[|]|] eqn:Hhead.
    + destruct Houtc as (p & -> & Hne & Hend).
      destruct p as [|c p]; [done|].
      rewrite (head_app_Some _ _ _ Hhead).
      eexists _, _. split_and!; [done|done|].
      eexists. split_and!; [done|done|].
      intros (_ & Hpl & _). by apply Hend.
    + destruct Houtc as (m & ->).
      rewrite (head_app_Some _ _ _ Hhead).
      eexists _, _. split_and!; [done|done|by exists m].
    + rewrite Houtc, (head_app_nil _ _ Hhead).
      destruct (IH rest dir w1 Hrest) as (out & w' & -> & Hfs & Hout).
      exists out, w'. split_and!; [done|congruence|].
      destruct (head (dir_events rest)) as [[|]|]; [|done|done].
      destruct Hout as (p & -> & Hne & Hend).
      exists p. split_and!; [done|done|]. intros (_ & _ & Hpl). by apply Hend.
  - eexists _, _. split_and!; [done|done|]. by eexists.
  - eexists _, _. split_and!; [done|done|]. by eexists.
Qed.

(** X13.  [findNodeFile] walks the tree depth first, in the order of
    [readdirSync], and leaves the file system alone.  Its outcome is
    decided by the first thing it meets that is either a regular file
    whose name ends in ".node" or something it cannot list or examine.
    When it meets neither, it returns null (a directory whose name
    ends in ".node" is searched, not returned).  When the file comes
    first, it returns a non-empty path, which ends in ".node",
    whatever lies further on.  When the failure comes first (a
    dangling symbolic link, an unreadable directory, a start that is
    no directory), it throws the error of [fs], even when a ".node"
    file lies further on. *)
Theorem findNodeFile_search (t : Download.Tree) (dir : string) (w : World) :
  ∃ out w',
    Download.findNodeFile env dir t w = (out, w')
    ∧ w_fs w' = w_fs w
    ∧ match first_event t with
      | None => out = Ret None
      | Some NodeFile =>
          ∃ p, out = Ret (Some p) ∧ p ≠ ""
               ∧ (names_plain (path_flavour env) t → Str.ends_with p ".node")
      | Some Failure => ∃ m, out = Throw (VErr m)
      end.
Proof using Type.
  destruct t as [|files|code|code];
    [by eexists _, _; split_and!; [done|done|eexists]| |
     by eexists _, _; split_and!; [done|done|eexists]..].
  by eapply findNodeFile_search_bounded.
Qed.

Lemma findNodeFile_decided (t : Download.Tree) (dir : string) (w : World) :
  ∃ out w',
    Download.findNodeFile env dir t w = (out, w')
    ∧ w_fs w' = w_fs w
    ∧ decided (path_flavour env) t (first_event t) out.
Proof using Type.
  destruct t as [|files|code|code];
    [by eexists _, _; split_and!; [done|done|eexists]| |
     by eexists _, _; split_and!; [done|done|eexists]..].
  by eapply findNodeFile_search_bounded.
Qed.

Lemma findAndMoveNodeFile_eq (copy : string → string → M NState unit)
    (extractDir targetPath : string) (t : Download.Tree) (w : World) :
  Download.findAndMoveNodeFile copy env extractDir targetPath t w
  = match Download.findNodeFile env extractDir t
            (logged w (LOG, [VStr ("🔍 Looking for .node file in: " +:+ extractDir)])) with
    | (Ret (Some (String c p)), w1) =>
        match copy (String c p) targetPath w1 with
        | (Ret _, w2) =>
            (Ret true, logged w2 (LOG, [VStr ("  ✅ Moved to: " +:+ targetPath)]))
        | (Throw e, w2) => (Throw e, w2)
        end
    | (Ret _, w1) =>
        (Ret false,
         logged w1 (ERROR, [VStr ("  ❌ No .node file found in " +:+ extractDir)]))
    | (Throw e, w1) => (Throw e, w1)
    end.
Proof using Type.
  unfold Download.findAndMoveNodeFile, bind, console_log, console_error, console, logged.
  cbv beta iota zeta.
  by destruct (Download.findNodeFile env extractDir t _) as [[[[|c p]|]|e] w1].
Qed.

(** X14.  [findAndMoveNodeFile] by what the search meets first.
    Nothing: it returns false after an error line, the file system is
    as before, and [copyFileSync] is not called.  A failure of
    [readdirSync] or [statSync]: that error is thrown on, nothing is
    copied and no "No .node file found" line is written.  A ".node"
    file: [copyFileSync] is called once, from the file found to
    [targetPath], and the result is true; what [copyFileSync] throws
    is thrown on. *)
Theorem findAndMoveNodeFile_result (extractDir targetPath : string)
    (t : Download.Tree) (w : World) :
  match first_event t with
  | None =>
      ∃ w',
        (∀ any_copy : string → string → M NState unit,
           Download.findAndMoveNodeFile any_copy env extractDir targetPath t w
           = (Ret false, w'))
        ∧ w_fs w' = w_fs w
        ∧ last (w_log w')
          = Some (ERROR, [VStr ("  ❌ No .node file found in " +:+ extractDir)])
  | Some Failure =>
      ∃ m w',
        (∀ any_copy : string → string → M NState unit,
           Download.findAndMoveNodeFile any_copy env extractDir targetPath t w
           = (Throw (VErr m), w'))
        ∧ w_fs w' = w_fs w
        ∧ Download.findNodeFile env extractDir t
            (logged w (LOG, [VStr ("🔍 Looking for .node file in: " +:+ extractDir)]))
          = (Throw (VErr m), w')
  | Some NodeFile =>
      ∃ nodeFile w1,
        Download.findNodeFile env extractDir t
          (logged w (LOG, [VStr ("🔍 Looking for .node file in: " +:+ extractDir)]))
        = (Ret (Some nodeFile), w1)
        ∧ Download.findAndMoveNodeFile copyFileSync env extractDir targetPath t w
          = match copyFileSync nodeFile targetPath w1 with
            | (Ret _, w2) =>
                (Ret true, logged w2 (LOG, [VStr ("  ✅ Moved to: " +:+ targetPath)]))
            | (Throw e, w2) => (Throw e, w2)
            end
  end.
Proof using Type.
  destruct (findNodeFile_decided t extractDir
              (logged w (LOG, [VStr ("🔍 Looking for .node file in: " +:+ extractDir)])))
    as (out & w1 & Hfind & Hfs & Hout).
  destruct (first_event t) as [[|]|]; simpl in Hout.
  - destruct Hout as (p & -> & Hne & _). destruct p as [|c p]; [done|].
    exists (String c p), w1. split; [done|].
    by rewrite findAndMoveNodeFile_eq, Hfind.
  - destruct Hout as (m & ->). exists m, w1. split_and!; [|done|done].
    intros any_copy. by rewrite findAndMoveNodeFile_eq, Hfind.
  - subst out. eexists. split_and!.
    + intros any_copy. by rewrite findAndMoveNodeFile_eq, Hfind.
    + done.
    + unfold logged. simpl. apply last_snoc.
Qed.

End DownloadFacts.

Lemma targetPath_eq (fl : Path.Flavour) (platform : string) :
  Path.plain fl platform →
  Download.targetPath fl platform
  = Str.join (Path.sep fl) ["prebuilds"; platform; "build"; "Release"; "audify.node"].
Proof.
  intros Hplain. unfold Download.targetPath.
  rewrite join_cons_plain; [by destruct fl|done|done|].
  repeat (apply Forall_cons_2; [first [apply Hplain | by destruct fl; compute_done]|]).
  apply Forall_nil_2.
Qed.

Lemma join_targetPath (fl : Path.Flavour) (d platform : string) :
  Path.plain fl platform →
  Path.join fl [d; Download.targetPath fl platform]
  = Path.join fl [d; "prebuilds"; platform; "build"; "Release"; "audify.node"].
Proof.
  intros Hplain. rewrite targetPath_eq by done.
  set (tail := ["prebuilds"; platform; "build"; "Release"; "audify.node"]).
  assert (Str.join (Path.sep fl) tail ≠ "") as HT.
  { by apply Path.join_cons_ne. }
  assert (filter (λ s, s ≠ "") tail = tail) as Hf.
  { unfold tail. destruct Hplain as (Hne & _).
    by rewrite !filter_cons_True by done. }
  unfold Path.join.
  change (d :: "prebuilds" :: platform :: "build" :: "Release" :: ["audify.node"])
    with (d :: tail).
  destruct (decide (d = "")) as [->|Hd].
  - rewrite (filter_cons_False _ "") by (by intros ?).
    rewrite (filter_cons_False _ "" tail) by (by intros ?).
    rewrite filter_cons_True by done. by rewrite Hf.
  - rewrite (filter_cons_True _ d) by done.
    rewrite (filter_cons_True _ d tail) by done.
    rewrite filter_cons_True by done. by rewrite Hf.
Qed.

(** X15.  Every binary of the release goes where the loader looks for
    it: for each platform of BINARIES, the loader running on that
    platform from a package root resolves the script's [targetPath],
    taken from the same root.  Every platform of BINARIES is a key of
    the loader's table; win32-arm64 is the one key of the table for
    which the script fetches no binary. *)
Theorem download_target_is_loader_path (NState : Type) (env : Env)
    (w : World NState) (archive : string) :
  (archive, platform_key env) ∈ Download.BINARIES →
  fst (getBinaryPath env w)
  = Ret (Path.join (path_flavour env)
           [dirname env; Download.targetPath (path_flavour env) (platform_key env)])
  ∧ Forall (λ platform, platform ∈ Obj.keys PLATFORM_MAP) Download.BINARIES.*2
  ∧ filter (λ key, key ∉ Download.BINARIES.*2) (Obj.keys PLATFORM_MAP)
    = ["win32-arm64"].
Proof.
  intros Hin. split_and!; [|compute_done..].
  assert (platform_key env ∈ Obj.keys PLATFORM_MAP) as Hkey.
  { assert (Forall (λ p, p ∈ Obj.keys PLATFORM_MAP) Download.BINARIES.*2) as Hall
      by compute_done.
    rewrite Forall_forall in Hall. apply Hall.
    apply list_elem_of_fmap. by exists (archive, platform_key env). }
  destruct (supported_resolved env Hkey) as [path Hres].
  rewrite (getBinaryPath_supported NState env w path Hres). simpl. f_equal.
  unfold resolved_path in Hres.
  destruct (Obj.own PLATFORM_MAP (platform_key env)) as [v|] eqn:Hown; [|done].
  destruct (own_PLATFORM_MAP _ _ Hown) as [-> Hplain].
  injection Hres as <-. by rewrite join_targetPath.
Qed.

(** * The added properties on concrete machines *)

Module Scenarios.

(** An artifact that only the superuser may read. *)
Definition locked : FS := {[ Run.artifact := Run.private_file ]}.

(** A [require] that fails as [dlopen] does on a file that is no
    shared object. *)
Definition failing_require (path : string) : M unit Obj.Props :=
  throw (VErr "invalid ELF header").

(** An addon that has a function under the loader's name healthCheck,
    a string under the loader's name version, and a function of its
    own. *)
Definition shadowing_addon : Obj.Props :=
  [ ("healthCheck", VFun (Native "hc"));
    ("version", VStr "9.9.9");
    ("echo", VFun (Native "echo")) ].

(** postinstall.js in a directory scripts of the package, with
    index.js one directory up. *)
Definition linux_scripts : Env :=
  mkEnv "linux" "x64" "/opt/app/scripts" VUndef 1000 [1000].

Definition freebsd_scripts : Env :=
  mkEnv "freebsd" "x64" "/opt/app/scripts" VUndef 1000 [1000].

Definition JSON_stringify (v : JsVal) : JsVal := v.

(** [require] where '../index.js' is this package's index.js, in
    /opt/app; and [require] where nothing lies at '../index.js', as
    for postinstall.js beside index.js in /opt/app. *)
Definition require_package (request : string) : M unit JsVal :=
  bind (index_js Run.require_addon Run.linux_x64) (λ exports, ret (VObj exports)).

Definition require_nothing (request : string) : M unit JsVal :=
  throw (VErr ("Cannot find module '" +:+ request +:+ "'")).

(** A module that exports no [healthCheck]. *)
Definition require_other (request : string) : M unit JsVal :=
  ret (VObj [ ("name", VStr "other") ]).

(** The archive of a release, unpacked: a text file, and the binary
    two directories down.  The same with a symbolic link that leads
    nowhere, after the binary and before it. *)
Definition unpacked : list (string * Download.Tree) :=
  [ ("README.md", Download.TFile);
    ("build", Download.TDir
       [ ("Release", Download.TDir [ ("audify.node", Download.TFile) ]) ]) ].

Definition dangling : Download.Tree :=
  Download.TBroken "ENOENT: no such file or directory".

Definition unpacked_link_last : list (string * Download.Tree) :=
  unpacked ++ [ ("current", dangling) ].

Definition unpacked_link_first : list (string * Download.Tree) :=
  ("current", dangling) :: unpacked.

Definition copyFileSync (src dest : string) : M unit unit :=
  λ w, match w_fs w !! src with
       | Some f => (Ret (), mkWorld (<[dest := f]> (w_fs w)) (w_sched w) (w_log w) (w_native w))
       | None => (Throw (fs_error "ENOENT: no such file or directory" "copyfile" src), w)
       end.

(** *** X1 *)
Lemma loadNativeModule_cannot_load_witness :
  resolved_path Run.linux_x64 = Some Run.artifact
  ∧ locked !! Run.artifact = Some Run.private_file
  ∧ may_read Run.linux_x64 Run.private_file = false
  ∧ ∃ w',
      loadNativeModule Run.require_addon Run.linux_x64 (Run.world locked)
      = (Throw (VErr "[Audify-JS-Plus] Cannot load binary: /opt/app/prebuilds/linux-x64/build/Release/audify.node. Please ensure the binary exists and is accessible."), w')
      ∧ w_fs w' = locked.
Proof.
  assert (locked !! Run.artifact = Some Run.private_file) as Hf
    by apply lookup_singleton_eq.
  split_and!; [reflexivity | exact Hf | reflexivity |].
  destruct (loadNativeModule_cannot_load unit Run.require_addon Run.linux_x64
              Run.artifact (Run.world locked))
    as (w' & Hthrow & _ & Hfs & _).
  - reflexivity.
  - reflexivity.
  - right. exists Run.private_file. split; [exact Hf | reflexivity].
  - exists w'. split; [exact Hthrow | exact Hfs].
Defined.

(** *** X2 *)
Lemma loadNativeModule_load_failure_witness :
  ∃ w',
    loadNativeModule failing_require Run.linux_x64 (Run.world Run.installed)
    = (Throw (VErr "[Audify-JS-Plus] Failed to load native module from /opt/app/prebuilds/linux-x64/build/Release/audify.node: invalid ELF header"), w').
Proof.
  destruct (loadNativeModule_load_failure unit failing_require Run.linux_x64
              Run.artifact (Run.world Run.installed) (VErr "invalid ELF header"))
    as (w' & Hthrow).
  - reflexivity.
  - reflexivity.
  - exists Run.own_file. split; [apply Run.lookup_installed | reflexivity].
  - intros w1. exists w1. reflexivity.
  - exists w'. exact Hthrow.
Defined.

(** *** X3 *)
Lemma index_js_throws_witness :
  ∃ m w1 w',
    loadNativeModule Run.require_addon Run.freebsd_x64 (Run.world ∅)
    = (Throw (VErr m), w1)
    ∧ index_js Run.require_addon Run.freebsd_x64 (Run.world ∅) = (Throw (VErr m), w')
    ∧ w_fs w' = w_fs w1.
Proof.
  destruct (index_js Run.require_addon Run.freebsd_x64 (Run.world ∅))
    as [[exports|e] w'] eqn:Hrun.
  - vm_compute in Hrun. discriminate Hrun.
  - destruct (index_js_throws unit Run.require_addon Run.freebsd_x64
                (Run.world ∅) w' e Hrun) as (m & w1 & Hload & -> & _ & Hfs).
    exists m, w1, w'. split_and!; [exact Hload | reflexivity | exact Hfs].
Defined.

(** *** X4 *)
Lemma getPlatformInfo_agrees_with_healthCheck_witness :
  (∃ path report,
     fst (getPlatformInfo Run.linux_x64 (Run.world Run.installed))
     = Ret (VObj [ ("platform", VStr "linux"); ("arch", VStr "x64");
                   ("key", VStr "linux-x64"); ("binaryPath", VStr path) ])
     ∧ fst (healthCheck Run.linux_x64 (Run.world Run.installed)) = Ret (VObj report)
     ∧ Obj.own report "binaryPath" = Some (VStr path))
  ∧ (∃ m report,
       fst (getPlatformInfo Run.freebsd_x64 (Run.world ∅)) = Throw (VErr m)
       ∧ fst (healthCheck Run.freebsd_x64 (Run.world ∅)) = Ret (VObj report)
       ∧ Obj.own report "error" = Some (VStr m)).
Proof.
  split.
  - destruct (proj1 (getPlatformInfo_agrees_with_healthCheck unit Run.linux_x64
                       (Run.world Run.installed)))
      as (path & w1 & report & w2 & Hinfo & Hhealth & _ & Hpath); [compute_done|].
    exists path, report. by rewrite Hinfo, Hhealth.
  - destruct (proj2 (getPlatformInfo_agrees_with_healthCheck unit Run.freebsd_x64
                       (Run.world ∅)))
      as (m & w1 & report & w2 & Hinfo & Hhealth & Herr); [compute_done|].
    exists m, report. by rewrite Hinfo, Hhealth.
Defined.

(** *** X5 *)
Lemma healthCheck_read_only_witness :
  ∃ report w',
    healthCheck Run.linux_x64 (Run.world Run.installed) = (Ret report, w')
    ∧ w_fs w' = Run.installed
    ∧ fst (healthCheck Run.linux_x64 w') = Ret report.
Proof.
  destruct (healthCheck_read_only unit Run.linux_x64 (Run.world Run.installed))
    as (report & w' & lines & Hrun & Hfs & _ & _ & _ & Hagain); [reflexivity|].
  exists report, w'. split_and!; [exact Hrun | exact Hfs | exact Hagain].
Defined.

(** *** X6 *)
Lemma audifyExports_keys_witness :
  Obj.keys (audifyExports shadowing_addon)
  = [ "healthCheck"; "version"; "echo";
      "OpusApplication"; "RtAudioApi"; "RtAudioFormat"; "RtAudioStreamFlags";
      "RtAudioErrorType"; "getPlatformInfo" ].
Proof.
  rewrite (audifyExports_keys shadowing_addon); [reflexivity|].
  compute_done.
Defined.

(** *** X7 *)
Lemma audifyExports_values_witness :
  Obj.own (audifyExports shadowing_addon) "healthCheck"
  = Some (VFun (withErrorHandling (Native "hc") "healthCheck"))
  ∧ Obj.own (audifyExports shadowing_addon) "version" = Some (VStr "2.0.1")
  ∧ Obj.own (audifyExports shadowing_addon) "echo"
    = Some (VFun (withErrorHandling (Native "echo") "echo"))
  ∧ Obj.own (audifyExports shadowing_addon) "RtAudioFormat" = Some (VObj RtAudioFormat).
Proof.
  assert (NoDup (Obj.keys shadowing_addon)) as Hnd by compute_done.
  split_and!; by rewrite (audifyExports_values shadowing_addon _ Hnd).
Defined.

(** *** X8 *)

(** postinstall.js beside index.js in /opt/app: the script looks in
    /opt/prebuilds, the loader in /opt/app/prebuilds. *)
Lemma postinstall_getBinaryPath_one_level_up_witness :
  PostInstall.getBinaryPath Run.linux_x64 (Run.world ∅)
  = (Ret (Some "/opt/prebuilds/linux-x64/build/Release/audify.node"), Run.world ∅)
  ∧ fst (getBinaryPath Run.linux_x64 (Run.world ∅))
    = Ret "/opt/app/prebuilds/linux-x64/build/Release/audify.node"
  ∧ fst (PostInstall.getBinaryPath linux_scripts (Run.world ∅)) = Ret (Some Run.artifact)
  ∧ fst (PostInstall.getBinaryPath Run.freebsd_x64 (Run.world ∅)) = Ret None
  ∧ ∃ m, fst (getBinaryPath Run.freebsd_x64 (Run.world ∅)) = Throw (VErr m).
Proof.
  destruct (postinstall_getBinaryPath_one_level_up unit Run.linux_x64 (Run.world ∅))
    as [_ Hup].
  destruct (Hup "/opt" "app") as (above & beside & Habove & Hbeside & Hscript & Hdiff);
    [done | compute_done | reflexivity | compute_done |].
  destruct (postinstall_getBinaryPath_one_level_up unit Run.freebsd_x64 (Run.world ∅))
    as [(r & w' & Hrun & _ & _ & _ & [Hnone _] & _) _].
  split_and!; [reflexivity | reflexivity | reflexivity | reflexivity |].
  apply Hnone. vm_compute in Hrun. by injection Hrun as <- _.
Defined.

(** *** X9 *)
Lemma runHealthCheck_result_witness :
  PostInstall.runHealthCheck require_nothing Run.native_call JSON_stringify
    Run.linux_x64 (Run.world Run.installed)
  = (Ret false,
     mkWorld Run.installed []
       [(ERROR, [VStr "❌ [Audify-JS-Plus] Installation failed:";
                 VStr "Cannot find module '../index.js'"])] tt)
  ∧ fst (PostInstall.runHealthCheck require_other Run.native_call JSON_stringify
           Run.linux_x64 (Run.world Run.installed)) = Ret false
  ∧ fst (PostInstall.runHealthCheck require_package Run.native_call JSON_stringify
           Run.linux_x64 (Run.world Run.installed)) = Ret true
  ∧ fst (PostInstall.runHealthCheck require_package Run.native_call JSON_stringify
           Run.linux_x64 (Run.world ∅)) = Ret false.
Proof.
  split_and!.
  - exact (proj1 (runHealthCheck_result unit require_nothing Run.native_call
                    JSON_stringify Run.linux_x64 (Run.world Run.installed))
             "Cannot find module '../index.js'" (Run.world Run.installed) eq_refl).
  - destruct (runHealthCheck_result unit require_other Run.native_call
                JSON_stringify Run.linux_x64 (Run.world Run.installed))
      as (_ & Hother & _).
    by rewrite (Hother [ ("name", VStr "other") ] (Run.world Run.installed)).
  - destruct (require_package "../index.js" (Run.world Run.installed))
      as [[[| | | |exports| | |]|e] w1] eqn:Hrun;
      try (vm_compute in Hrun; discriminate Hrun).
    destruct (runHealthCheck_result unit require_package Run.native_call
                JSON_stringify Run.linux_x64 (Run.world Run.installed))
      as (_ & _ & Hown).
    destruct (Hown exports w1 Hrun) as (report & w2 & b & w' & Hhealth & Hres & Hb).
    + vm_compute in Hrun. injection Hrun as <- _. reflexivity.
    + rewrite Hres. simpl. f_equal. apply Hb.
      vm_compute in Hrun. injection Hrun as _ <-.
      vm_compute in Hhealth. injection Hhealth as <- _. reflexivity.
  - reflexivity.
Defined.

(** *** X10 *)
Lemma main_result_witness :
  (∃ w',
     PostInstall.main require_package Run.native_call JSON_stringify
       Run.freebsd_x64 freebsd_scripts (Run.world Run.installed) = (Ret [], w')
     ∧ w_fs w' = Run.installed)
  ∧ (∃ w',
       PostInstall.main require_package Run.native_call JSON_stringify
         Run.linux_x64 linux_scripts (Run.world Run.installed)
       = (Ret [PostInstall.health_check_timer require_package Run.native_call
                 JSON_stringify Run.linux_x64], w')
       ∧ w_fs w' !! Run.artifact = Some (mkFile (octal [7; 5; 5]) 1000 1000)).
Proof.
  split.
  - destruct (proj1 (main_result unit require_package Run.native_call
                       JSON_stringify Run.freebsd_x64 freebsd_scripts
                       (Run.world Run.installed)))
      as (w' & Hmain & Hfs & _); [compute_done|].
    exists w'. split; [exact Hmain | exact Hfs].
  - destruct (proj2 (main_result unit require_package Run.native_call
                       JSON_stringify Run.linux_x64 linux_scripts
                       (Run.world Run.installed)))
      as (path & w1 & b & w' & _ & _ & _ & _ & Hmain); [compute_done|].
    exists w'. split; [exact Hmain|].
    vm_compute in Hmain. injection Hmain as <-. vm_compute. reflexivity.
Defined.

(** *** X11 *)
Lemma setBinaryPermissions_touches_one_file_witness :
  ∃ b w',
    setBinaryPermissions Run.linux_x64 Run.artifact
      (Run.world (<["/etc/passwd" := Run.root_file]> Run.installed)) = (Ret b, w')
    ∧ w_fs w' !! "/etc/passwd" = Some Run.root_file
    ∧ ∃ f', w_fs w' !! Run.artifact = Some f' ∧ f_uid f' = 1000.
Proof.
  destruct (setBinaryPermissions_touches_one_file unit Run.linux_x64 Run.artifact
              (Run.world (<["/etc/passwd" := Run.root_file]> Run.installed)))
    as (b & w' & Hrun & Hrest).
  destruct (Hrest eq_refl) as (Hother & _ & Hsame).
  exists b, w'. split_and!; [exact Hrun | |].
  - rewrite Hother by done. apply lookup_insert_eq.
  - destruct (Hsame Run.own_file) as (f' & Hf' & Huid & _).
    + simpl. rewrite lookup_insert_ne by done. apply Run.lookup_installed.
    + exists f'. split; [exact Hf' | exact Huid].
Defined.

(** *** X12 *)
Lemma setBinaryPermissions_makes_readable_witness :
  may_read Run.linux_x64 (mkFile (octal [2; 0; 0]) 1000 1000) = false
  ∧ ∃ w',
      setBinaryPermissions Run.linux_x64 Run.artifact
        (Run.world {[ Run.artifact := mkFile (octal [2; 0; 0]) 1000 1000 ]})
      = (Ret true, w')
      ∧ fst (verifyBinary Run.linux_x64 Run.artifact w') = Ret true
      ∧ fst (setBinaryPermissions Run.linux_x64 Run.artifact w') = Ret true.
Proof.
  split; [reflexivity|].
  destruct (setBinaryPermissions Run.linux_x64 Run.artifact
              (Run.world {[ Run.artifact := mkFile (octal [2; 0; 0]) 1000 1000 ]}))
    as [[[|]|e] w'] eqn:Hrun; try (vm_compute in Hrun; discriminate Hrun).
  destruct (setBinaryPermissions_makes_readable unit Run.linux_x64 Run.artifact
              (Run.world {[ Run.artifact := mkFile (octal [2; 0; 0]) 1000 1000 ]}) w')
    as ([w3 Hv] & w'' & Hagain & _).
  - done.
  - reflexivity.
  - exact Hrun.
  - exists w'. split; [reflexivity|]. by rewrite Hv, Hagain.
Defined.

(** *** X13 *)
Lemma findNodeFile_search_witness :
  fst (Download.findNodeFile Run.linux_x64 "downloads/extract-linux-x64"
         (Download.TDir unpacked_link_last) (Run.world ∅))
  = Ret (Some "downloads/extract-linux-x64/build/Release/audify.node")
  ∧ fst (Download.findNodeFile Run.linux_x64 "downloads/extract-linux-x64"
           (Download.TDir unpacked_link_first) (Run.world ∅))
    = Throw (VErr "ENOENT: no such file or directory, stat 'downloads/extract-linux-x64/current'")
  ∧ fst (Download.findNodeFile Run.linux_x64 "downloads/extract-linux-x64"
           (Download.TDir [ ("audify.node", Download.TDir []) ]) (Run.world ∅))
    = Ret None.
Proof.
  destruct (findNodeFile_search unit Run.linux_x64 (Download.TDir unpacked_link_last)
              "downloads/extract-linux-x64" (Run.world ∅))
    as (out & w' & Hfind & _ & p & Hout & _ & Hend).
  destruct (findNodeFile_search unit Run.linux_x64 (Download.TDir unpacked_link_first)
              "downloads/extract-linux-x64" (Run.world ∅))
    as (out' & w'' & Hfind' & _ & m & Hout').
  split_and!; reflexivity.
Defined.

(** *** X14 *)
Lemma findAndMoveNodeFile_result_witness :
  (∃ w',
     Download.findAndMoveNodeFile copyFileSync Run.linux_x64
       "downloads/extract-linux-x64" (Download.targetPath Path.Posix "linux-x64")
       (Download.TDir [ ("README.md", Download.TFile) ])
       (Run.world ∅) = (Ret false, w')
     ∧ w_fs w' = ∅)
  ∧ (∃ m w',
       Download.findAndMoveNodeFile copyFileSync Run.linux_x64
         "downloads/extract-linux-x64" (Download.targetPath Path.Posix "linux-x64")
         (Download.TDir unpacked_link_first)
         (Run.world {[ "downloads/extract-linux-x64/build/Release/audify.node"
                       := Run.own_file ]}) = (Throw (VErr m), w')
       ∧ w_fs w' !! "prebuilds/linux-x64/build/Release/audify.node" = None)
  ∧ (∃ w',
       Download.findAndMoveNodeFile copyFileSync Run.linux_x64
         "downloads/extract-linux-x64" (Download.targetPath Path.Posix "linux-x64")
         (Download.TDir unpacked)
         (Run.world {[ "downloads/extract-linux-x64/build/Release/audify.node"
                       := Run.own_file ]}) = (Ret true, w')
       ∧ w_fs w' !! "prebuilds/linux-x64/build/Release/audify.node" = Some Run.own_file).
Proof.
  split_and!.
  - destruct (findAndMoveNodeFile_result unit copyFileSync Run.linux_x64
                "downloads/extract-linux-x64"
                (Download.targetPath Path.Posix "linux-x64")
                (Download.TDir [ ("README.md", Download.TFile) ]) (Run.world ∅))
      as (w' & Hrun & Hfs & _).
    exists w'. split; [apply Hrun | exact Hfs].
  - destruct (findAndMoveNodeFile_result unit copyFileSync Run.linux_x64
                "downloads/extract-linux-x64"
                (Download.targetPath Path.Posix "linux-x64")
                (Download.TDir unpacked_link_first)
                (Run.world {[ "downloads/extract-linux-x64/build/Release/audify.node"
                              := Run.own_file ]}))
      as (m & w' & Hrun & Hfs & _).
    exists m, w'. split; [apply Hrun|]. rewrite Hfs. simpl.
    by apply lookup_singleton_ne.
  - destruct (findAndMoveNodeFile_result unit copyFileSync Run.linux_x64
                "downloads/extract-linux-x64"
                (Download.targetPath Path.Posix "linux-x64")
                (Download.TDir unpacked)
                (Run.world {[ "downloads/extract-linux-x64/build/Release/audify.node"
                              := Run.own_file ]}))
      as (nodeFile & w1 & Hfind & Hrun).
    vm_compute in Hfind. injection Hfind as <- <-.
    eexists. split; [rewrite Hrun; vm_compute; reflexivity|].
    vm_compute. reflexivity.
Defined.

(** *** X15 *)
Lemma download_target_is_loader_path_witness :
  ("audify-v1.9.0-napi-v8-linux-x64.tar.gz", "linux-x64") ∈ Download.BINARIES
  ∧ Download.targetPath Path.Posix "linux-x64"
    = "prebuilds/linux-x64/build/Release/audify.node"
  ∧ fst (getBinaryPath Run.linux_x64 (Run.world ∅))
    = Ret (Path.join Path.Posix
             ["/opt/app"; Download.targetPath Path.Posix "linux-x64"]).
Proof.
  assert (("audify-v1.9.0-napi-v8-linux-x64.tar.gz", platform_key Run.linux_x64)
          ∈ Download.BINARIES) as Hin by compute_done.
  destruct (download_target_is_loader_path unit Run.linux_x64 (Run.world ∅) _ Hin)
    as (Hpath & _).
  split_and!; [exact Hin | reflexivity | exact Hpath].
Defined.

End Scenarios.
